(** * Mileage calculator: batch table generator and interactive tool

    A shallow embedding of the two JavaScript programs of the repository:

    - [Batch]: generateMileageTable.js, the script that geocodes a fixed
      set of named locations, asks the routing service for the driving
      distance of every pair and writes the mileage table, with the two
      cache files in front of the services;
    - [Interactive]: the browser tool (calculateMileage and the helpers
      it calls), which geocodes the lines of a text area and renders one
      table row per leg of the route.

    [Js] holds the fragment of the JavaScript value model both rely on:
    truthiness, ToNumber, and Number.prototype.toFixed / parseFloat on
    IEEE binary64 numbers (Rocq's primitive floats are binary64, so the
    arithmetic of the programs is evaluated bit for bit).

    The external services are an oracle: a function from the number of
    requests already issued and the request to the response.  Every
    request that the program issues is appended to a log, which is how
    "no network request" is stated. *)

From Stdlib Require Import ZArith String List Ascii Lia DecimalString.
From Stdlib Require Import Floats.PrimFloat Floats.SpecFloat Floats.FloatOps.
From stdpp Require Import base option list sorting gmap strings.

#[local] Set Warnings "-inexact-float,-clear-no-such-hyp".

Local Open Scope string_scope.
Local Open Scope Z_scope.

(* ===================================================================== *)
(** * JavaScript values and numbers *)
(* ===================================================================== *)

Module Js.

(** The values that reach the caches, the coordinate table and the
    arithmetic.  Numbers are binary64.  [JCoord lat lon] is the object
    literal [{ lat, lon }] that [geocode] builds.  [JInherited name] is the
    value found on [Object.prototype] when a plain object is read at a name
    it does not own (a built-in function, or the prototype itself for
    [__proto__]).  Strings, arrays and other objects are outside the value
    domain: neither service returns one at the positions the programs
    read, and the script never stores one. *)
Inductive JsVal : Type :=
| JUndefined
| JNull
| JBool (b : bool)
| JNum (x : float)
| JCoord (lat lon : JsVal)
| JInherited (name : string).

#[global] Instance JsVal_inhabited : Inhabited JsVal := populate JUndefined.

(** The property names every plain object inherits. *)
Definition objectPrototypeNames : list string :=
  [ "constructor"; "__defineGetter__"; "__defineSetter__"; "hasOwnProperty";
    "__lookupGetter__"; "__lookupSetter__"; "isPrototypeOf";
    "propertyIsEnumerable"; "toString"; "valueOf"; "__proto__";
    "toLocaleString" ].

(** [obj[key]] on a plain object: the own property, else the inherited
    member, else [undefined]. *)
Definition get (obj : gmap string JsVal) (key : string) : JsVal :=
  match obj !! key with
  | Some v => v
  | None => if bool_decide (key ∈ objectPrototypeNames)
            then JInherited key else JUndefined
  end.

(** ToBoolean: [undefined], [null], [false], [+0], [-0] and [NaN] are
    falsy; every object is truthy. *)
Definition truthy (v : JsVal) : bool :=
  match v with
  | JUndefined | JNull => false
  | JBool b => b
  | JNum x => negb (is_nan x || is_zero x)
  | JCoord _ _ | JInherited _ => true
  end.

(** ToNumber.  A plain object or a function converts through its default
    string form, which is not a numeric literal. *)
Definition ToNumber (v : JsVal) : float :=
  match v with
  | JUndefined => nan
  | JNull => zero
  | JBool true => one
  | JBool false => zero
  | JNum x => x
  | JCoord _ _ | JInherited _ => nan
  end.

(** The result of [x.toFixed(2)], kept structured:
    - [FixedDec neg n] is the decimal text of [n / 100] with two digits
      after the point, preceded by a minus sign when [neg];
    - [FixedToString x] is [String(x)], which toFixed returns when [x] is
      not finite or its magnitude is at least 10^21. *)
Inductive Fixed : Type :=
| FixedDec (neg : bool) (n : Z)
| FixedToString (x : float).

(** Number.prototype.toFixed with two fraction digits.  For a finite
    [x = ± m * 2^e] below 10^21 the integer [n] minimises [|n / 100 - x|],
    the larger one on a tie, computed exactly. *)
Definition toFixed2 (x : float) : Fixed :=
  match Prim2SF x with
  | S754_nan | S754_infinity _ => FixedToString x
  | S754_zero _ => FixedDec false 0
  | S754_finite s m e =>
      let num := Z.pos m * 2 ^ Z.max 0 e in
      let den := 2 ^ Z.max 0 (- e) in
      if 10 ^ 21 * den <=? num then FixedToString x
      else FixedDec s ((2 * (100 * num) + den) / (2 * den))
  end.

(** The text of a decimal [toFixed] result: the digits of [n], padded
    with zeros to at least three, with the point before the last two. *)
Definition digits (n : Z) : string :=
  NilZero.string_of_uint (N.to_uint (Z.to_N n)).

Definition decimalText (neg : bool) (n : Z) : string :=
  let m := digits n in
  let m := match String.length m with
           | 1%nat => "00" ++ m
           | 2%nat => "0" ++ m
           | _ => m
           end in
  let k := String.length m in
  (if neg then "-" else "") ++
  substring 0 (k - 2) m ++ "." ++ substring (k - 2) 2 m.

(** The text shown for a [toFixed] result.  The exponent form of a finite
    number of magnitude 10^21 or more is the runtime's shortest
    round-trip printing and has no text here. *)
Definition fixedText (f : Fixed) : option string :=
  match f with
  | FixedDec neg n => Some (decimalText neg n)
  | FixedToString x =>
      if is_nan x then Some "NaN"
      else if (x =? infinity)%float then Some "Infinity"
      else if (x =? neg_infinity)%float then Some "-Infinity"
      else None
  end.

(** The binary64 nearest to [n / 100], ties to even: the quotient is
    taken with 128 extra bits and a sticky last bit, then rounded once. *)
Definition nearestHundredth (n : Z) : float :=
  let q := (n * 2 ^ 128) / 100 in
  let sticky := if (n * 2 ^ 128) mod 100 =? 0 then 0 else 1 in
  SF2Prim (binary_normalize prec emax (2 * q + sticky) (- 129) false).

(** [parseFloat] applied to the text of a [toFixed] result.  The text of
    [String(x)] reads back as [x]. *)
Definition parseFloat (f : Fixed) : float :=
  match f with
  | FixedDec neg n =>
      let v := nearestHundredth n in
      if neg then (- v)%float else v
  | FixedToString x => x
  end.

End Js.


(* ===================================================================== *)
(** * The batch script, generateMileageTable.js *)
(* ===================================================================== *)

Module Batch.
Import Js.

(** ** Configuration, requests and responses *)

(** [LOCATION_ALIAS]: the short-code to address mapping, as the list of
    its own properties in [Object.keys] order.  An object has each key
    once, which the theorems assume as [NoDup] of the keys. *)
Abbreviation Alias := (list (string * string)).

(** The mapping of the repository, with the address of HOME taken from
    the environment when it is set and not empty. *)
Definition LOCATION_ALIAS (HOME_ADDR : option string) : Alias :=
  [ ("HOME", match HOME_ADDR with
             | Some addr => if bool_decide (addr = "")
                            then "123 Fake St, Springfield IL" else addr
             | None => "123 Fake St, Springfield IL"
             end);
    ("LS", "200 Lakeshore Rd, Springfield IL");
    ("JACOBS", "14 Jacobs Ct, Springfield IL");
    ("OFFICE", "500 Corporate Dr, Springfield IL") ].

Definition Object_keys (alias : Alias) : list string := alias.*1.

(** [alias[key]]; reading a name the object does not own gives
    [undefined], which prints as the text below wherever the script uses
    it.  The script only reads the keys of the object. *)
Definition aliasGet (alias : Alias) (key : string) : string :=
  match list_find (λ kv, kv.1 = key) alias with
  | Some (_, (_, addr)) => addr
  | None => "undefined"
  end.

(** [keys[i]] for an array of strings, likewise. *)
Definition at_ (keys : list string) (i : nat) : string :=
  default "undefined" (keys !! i).

(** What a request to the services carries besides the access token: the
    address for the geocoding service, the four coordinate fields, in
    the order of the URL, for the routing service. *)
Inductive Request : Type :=
| GeocodeRequest (address : string)
| DirectionsRequest (lonA latA lonB latB : JsVal).

(** The cases the script distinguishes in a geocoding response.
    [GeoThrows] stands for the failures of the runtime: [fetch] rejects,
    the body is not JSON, or the match has no coordinate pair. *)
Inductive GeoResponse : Type :=
| GeoThrows (message : string)
| GeoNotOk
| GeoNoFeatures
| GeoCenter (lon lat : JsVal).

(** Likewise for the routing service; [RouteDistance d] is a response
    whose first route has [d] as its [distance] ([JUndefined] when the
    field is missing). *)
Inductive RouteResponse : Type :=
| RouteThrows (message : string)
| RouteNotOk
| RouteNoRoutes
| RouteDistance (d : JsVal).

(** The services.  The first argument is the number of requests the run
    has issued before this one, so that the same request may be answered
    differently at different times. *)
Record Network : Type := {
  geocoding : nat → string → GeoResponse;
  directions : nat → JsVal → JsVal → JsVal → JsVal → RouteResponse
}.

(** ** State and the monad of the script *)

(** The two module-level caches and the log of requests issued. *)
Record State : Type := {
  geoCache : gmap string JsVal;
  routeCache : gmap string JsVal;
  requests : list Request
}.

(** The mileage table: pair key to miles. *)
Abbreviation Table := (gmap string float).

(** A computation returns a value or throws; both carry the state
    reached. *)
Inductive Outcome (A : Type) : Type :=
| Ret (a : A) (st : State)
| Throw (message : string) (st : State).
Arguments Ret {A} a st.
Arguments Throw {A} message st.

Definition M (A : Type) : Type := State → Outcome A.

Definition ret {A} (a : A) : M A := λ st, Ret a st.

Definition throw {A} (message : string) : M A := λ st, Throw message st.

Definition bind {A B} (m : M A) (k : A → M B) : M B :=
  λ st, match m st with
        | Ret a st' => k a st'
        | Throw e st' => Throw e st'
        end.

Notation "'let*' x ':=' m 'in' k" := (bind m (λ x, k))
  (at level 10, x name, m at level 100, k at level 200,
   format "'let*'  x  :=  m  'in'  '/' k").

(** [for (let i = lo; i < hi; i++) acc = body(i, acc)], where [acc] is the
    object the body mutates. *)
Fixpoint forFrom {T} (count start : nat) (body : nat → T → M T) (acc : T) : M T :=
  match count with
  | O => ret acc
  | S count' => let* acc' := body start acc in forFrom count' (S start) body acc'
  end.

Definition forRange {T} (lo hi : nat) (body : nat → T → M T) (acc : T) : M T :=
  forFrom (hi - lo) lo body acc.

(** [for (const x of xs) acc = body(x, acc)]. *)
Fixpoint forOf {X T} (xs : list X) (body : X → T → M T) (acc : T) : M T :=
  match xs with
  | [] => ret acc
  | x :: xs' => let* acc' := body x acc in forOf xs' body acc'
  end.

Section Script.

Variable net : Network.

(** ** API helpers *)

(** [await fetch(url)] for each service: the request is logged and the
    oracle answers. *)
Definition fetchGeocoding (address : string) : M GeoResponse :=
  λ st, Ret (geocoding net (length (requests st)) address)
            {| geoCache := geoCache st; routeCache := routeCache st;
               requests := requests st ++ [GeocodeRequest address] |}.

Definition fetchDirections (lonA latA lonB latB : JsVal) : M RouteResponse :=
  λ st, Ret (directions net (length (requests st)) lonA latA lonB latB)
            {| geoCache := geoCache st; routeCache := routeCache st;
               requests := requests st ++ [DirectionsRequest lonA latA lonB latB] |}.

Definition readGeoCache (address : string) : M JsVal :=
  λ st, Ret (get (geoCache st) address) st.

Definition writeGeoCache (address : string) (v : JsVal) : M unit :=
  λ st, Ret tt {| geoCache := <[address := v]> (geoCache st);
                  routeCache := routeCache st; requests := requests st |}.

Definition readRouteCache (pairKey : string) : M JsVal :=
  λ st, Ret (get (routeCache st) pairKey) st.

Definition writeRouteCache (pairKey : string) (v : JsVal) : M unit :=
  λ st, Ret tt {| geoCache := geoCache st;
                  routeCache := <[pairKey := v]> (routeCache st);
                  requests := requests st |}.

(** [async function geocode(address)]. *)
Definition geocode (address : string) : M JsVal :=
  let* cached := readGeoCache address in
  if truthy cached then ret cached
  else
    let* rsp := fetchGeocoding address in
    match rsp with
    | GeoThrows message => throw message
    | GeoNotOk => throw ("Geocode failed for " ++ address)
    | GeoNoFeatures => throw ("No geocode match for " ++ address)
    | GeoCenter lon lat =>
        let* _ := writeGeoCache address (JCoord lat lon) in
        readGeoCache address
    end.

(** [coord.lon] and [coord.lat]: reading a property of [undefined] or
    [null] throws, any other value without the property gives
    [undefined]. *)
Definition field (name : string) (coord : JsVal) : M JsVal :=
  match coord with
  | JUndefined =>
      throw ("Cannot read properties of undefined (reading '" ++ name ++ "')")
  | JNull =>
      throw ("Cannot read properties of null (reading '" ++ name ++ "')")
  | JCoord lat lon =>
      ret (if bool_decide (name = "lat") then lat
           else if bool_decide (name = "lon") then lon
           else get ∅ name)
  | JBool _ | JNum _ | JInherited _ => ret JUndefined
  end.

(** [async function getMeters(coordA, coordB, pairKey)]. *)
Definition getMeters (coordA coordB : JsVal) (pairKey : string) : M JsVal :=
  let* cached := readRouteCache pairKey in
  if truthy cached then ret cached
  else
    let* lonA := field "lon" coordA in
    let* latA := field "lat" coordA in
    let* lonB := field "lon" coordB in
    let* latB := field "lat" coordB in
    let* rsp := fetchDirections lonA latA lonB latB in
    match rsp with
    | RouteThrows message => throw message
    | RouteNotOk => throw ("Route lookup failed for " ++ pairKey)
    | RouteNoRoutes => throw ("No route for " ++ pairKey)
    | RouteDistance meters =>
        let* _ := writeRouteCache pairKey meters in
        ret meters
    end.

(** [function metersToMiles(m)]; the division converts its operand to a
    number. *)
Definition metersToMiles (m : JsVal) : float :=
  (ToNumber m / 1609.344)%float.

(** ** Main script *)

(** The body of the geocoding loop. *)
Definition geocodeStep (alias : Alias) (key : string)
    (coords : gmap string JsVal) : M (gmap string JsVal) :=
  let addr := aliasGet alias key in
  let* c := geocode addr in
  ret (<[key := c]> coords).

(** The body of the inner pair loop. *)
Definition pairStep (keys : list string) (coords : gmap string JsVal)
    (i j : nat) (table : Table) : M Table :=
  let A := at_ keys i in
  let B := at_ keys j in
  let pairKey := A ++ "|" ++ B in
  let* meters := getMeters (get coords A) (get coords B) pairKey in
  let miles := parseFloat (toFixed2 (metersToMiles meters)) in
  let table := <[A ++ "|" ++ B := miles]> table in
  let table := <[B ++ "|" ++ A := miles]> table in
  ret table.

(** The two nested loops over [i < j]. *)
Definition pairLoop (keys : list string) (coords : gmap string JsVal)
    (table : Table) : M Table :=
  forRange 0 (length keys) (λ i table,
    forRange (i + 1) (length keys) (λ j table,
      pairStep keys coords i j table) table) table.

(** The body of the script up to the point where the files are written:
    geocode all locations first, then compute the distances. *)
Definition main (alias : Alias) : M Table :=
  let keys := Object_keys alias in
  let* coords := forOf keys (geocodeStep alias) ∅ in
  let* table := pairLoop keys coords ∅ in
  ret table.

End Script.

(** ** Cache files and the whole run *)

(** What [JSON.parse(JSON.stringify(v))] gives: a property holding
    [undefined] or a function is left out ([None]); a number that is not
    finite is written as [null], and [-0] as [0]; a finite number reads
    back unchanged.  A field that was left out reads as [undefined]. *)
Fixpoint toJSON (v : JsVal) : option JsVal :=
  match v with
  | JUndefined | JInherited _ => None
  | JNull => Some JNull
  | JBool b => Some (JBool b)
  | JNum x =>
      Some (if is_nan x || is_infinity x then JNull
            else if is_zero x then JNum zero else JNum x)
  | JCoord lat lon =>
      Some (JCoord (default JUndefined (toJSON lat))
                   (default JUndefined (toJSON lon)))
  end.

(** The three files of the script.  The content of a cache file is the
    object [JSON.parse] reads from it; [None] is a file that does not
    exist.  The generated module is kept as the table that the script
    serialises into it; in the text written, [JSON.stringify] prints a
    number that is not finite as [null] and [-0] as [0]. *)
Record Files : Type := {
  geoCacheFile : option (gmap string JsVal);
  routeCacheFile : option (gmap string JsVal);
  mileageTableFile : option Table
}.

(** [function loadCache(path)]. *)
Definition loadCache (file : option (gmap string JsVal)) : gmap string JsVal :=
  match file with
  | Some obj => obj
  | None => ∅
  end.

(** [function saveCache(path, obj)]: the file that results. *)
Definition saveCache (obj : gmap string JsVal) : option (gmap string JsVal) :=
  Some (omap toJSON obj).

(** What a run of the script leaves behind. *)
Record Run : Type := {
  filesAfter : Files;
  issued : list Request;
  thrown : option string
}.

(** The script from start to end: load both caches, run [main], then
    save the caches and write the table.  When a lookup throws the
    script ends there and no file is written. *)
Definition script (net : Network) (alias : Alias) (files : Files) : Run :=
  let st0 := {| geoCache := loadCache (geoCacheFile files);
                routeCache := loadCache (routeCacheFile files);
                requests := [] |} in
  match main net alias st0 with
  | Ret table st =>
      {| filesAfter := {| geoCacheFile := saveCache (geoCache st);
                          routeCacheFile := saveCache (routeCache st);
                          mileageTableFile := Some table |};
         issued := requests st;
         thrown := None |}
  | Throw message st =>
      {| filesAfter := files; issued := requests st; thrown := Some message |}
  end.

(** ** Vocabulary of the properties *)

(** The index pairs [(i, j)] with [i < j < n], row by row. *)
Definition pairIndices (n : nat) : list (nat * nat) :=
  i ← seq 0 n; (λ j, (i, j)) <$> seq (S i) (n - S i).

(** The pairs of identifiers at those indices. *)
Definition keysAt (keys : list string) (ij : nat * nat) : string * string :=
  (at_ keys ij.1, at_ keys ij.2).

Definition keyPairs (keys : list string) : list (string * string) :=
  keysAt keys <$> pairIndices (length keys).

Definition pairKey (AB : string * string) : string := AB.1 ++ "|" ++ AB.2.

(** Lexicographic order on index pairs. *)
Definition lexLt (p q : nat * nat) : Prop :=
  (p.1 < q.1)%nat ∨ (p.1 = q.1 ∧ (p.2 < q.2)%nat).

(** [for] over a list of index pairs, which the nested loops amount to. *)
Fixpoint forPairs {T} (l : list (nat * nat)) (body : nat → nat → T → M T)
    (acc : T) : M T :=
  match l with
  | [] => ret acc
  | (i, j) :: l' => let* acc' := body i j acc in forPairs l' body acc'
  end.

(** The script stopped after the first [k] iterations of the body of the
    pair loop: the table states that a run goes through are the results
    of [mainPrefix] for the successive [k]. *)
Definition mainPrefix (net : Network) (alias : Alias) (k : nat) : M Table :=
  let keys := Object_keys alias in
  let* coords := forOf keys (geocodeStep net alias) ∅ in
  forPairs (take k (pairIndices (length keys))) (pairStep net keys coords) ∅.

(** [coord.lon] and [coord.lat] as values, for a coordinate that can
    be read (any value but [undefined] and [null]). *)
Definition coordField (name : string) (coord : JsVal) : JsVal :=
  match coord with
  | JCoord lat lon =>
      if bool_decide (name = "lat") then lat
      else if bool_decide (name = "lon") then lon
      else get ∅ name
  | _ => JUndefined
  end.

(** The routing request of the script for two coordinates: the four
    fields in the order of the URL. *)
Definition routeRequest (coordA coordB : JsVal) : Request :=
  DirectionsRequest (coordField "lon" coordA) (coordField "lat" coordA)
                    (coordField "lon" coordB) (coordField "lat" coordB).

(** The answer of the routing service to that request, sent as request
    number [n] of the run. *)
Definition routeAnswer (net : Network) (n : nat) (coordA coordB : JsVal)
    : RouteResponse :=
  directions net n (coordField "lon" coordA) (coordField "lat" coordA)
                   (coordField "lon" coordB) (coordField "lat" coordB).

(** The meters value was the distance of some response of the routing
    service. *)
Definition fromService (net : Network) (meters : JsVal) : Prop :=
  ∃ n lonA latA lonB latB,
    directions net n lonA latA lonB latB = RouteDistance meters.

(** The identifier does not contain the separator of the pair keys. *)
Definition noBar (key : string) : Prop :=
  "|"%char ∉ String.list_ascii_of_string key.

(** The keys written for a list of pairs, both orderings. *)
Definition directedKeys (pairs : list (string * string)) : list string :=
  AB ← pairs; [AB.1 ++ "|" ++ AB.2; AB.2 ++ "|" ++ AB.1].

(** Meters to the miles stored in the table. *)
Definition milesOf (meters : JsVal) : float :=
  parseFloat (toFixed2 (metersToMiles meters)).

(** The table that a route cache determines for a list of pairs: the
    cached meters of each pair, in miles to two decimals, under both
    orderings. *)
Definition tableOf (cache : gmap string JsVal) (pairs : list (string * string))
    (table : Table) : Table :=
  foldl (λ table AB,
           let miles := milesOf (get cache (pairKey AB)) in
           <[AB.2 ++ "|" ++ AB.1 := miles]> (<[AB.1 ++ "|" ++ AB.2 := miles]> table))
        table pairs.

(** A warm cache: every address and every pair key has a value that the
    helpers accept as a hit. *)
Definition warm (alias : Alias) (st : State) : Prop :=
  (∀ key, key ∈ Object_keys alias →
     truthy (get (geoCache st) (aliasGet alias key)) = true) ∧
  (∀ AB, AB ∈ keyPairs (Object_keys alias) →
     truthy (get (routeCache st) (pairKey AB)) = true).

(** Both cache files exist and hold an entry for every address and
    every pair key. *)
Definition covers (alias : Alias) (files : Files) : Prop :=
  match geoCacheFile files, routeCacheFile files with
  | Some geo, Some route =>
      Forall (λ key, is_Some (geo !! aliasGet alias key)) (Object_keys alias)
      ∧ Forall (λ AB, is_Some (route !! pairKey AB)) (keyPairs (Object_keys alias))
  | _, _ => False
  end.

(** The computation returned. *)
Definition returned {A} (o : Outcome A) : bool :=
  match o with
  | Ret _ _ => true
  | Throw _ _ => false
  end.

(** The state in which a computation ends. *)
Definition stateOf {A} (o : Outcome A) : State :=
  match o with
  | Ret _ st => st
  | Throw _ st => st
  end.

#[global] Instance noBar_dec (key : string) : Decision (noBar key).
Proof. unfold noBar. apply _. Defined.

(** The two kinds of request. *)
Definition isGeocodeRequest (r : Request) : Prop :=
  match r with
  | GeocodeRequest _ => True
  | DirectionsRequest _ _ _ _ => False
  end.

Definition isDirectionsRequest (r : Request) : Prop :=
  match r with
  | GeocodeRequest _ => False
  | DirectionsRequest _ _ _ _ => True
  end.

(** The addresses of the mapping, in the order of its keys. *)
Definition addresses (alias : Alias) : list string :=
  aliasGet alias <$> Object_keys alias.

(** The entries that count as hits are the same in both states. *)
Definition keepsHits (st st' : State) : Prop :=
  (∀ k, truthy (get (geoCache st) k) = true → geoCache st' !! k = geoCache st !! k)
  ∧ (∀ k, truthy (get (routeCache st) k) = true → routeCache st' !! k = routeCache st !! k).

(** The state a run of the script starts in. *)
Definition loaded (files : Files) : State :=
  {| geoCache := loadCache (geoCacheFile files);
     routeCache := loadCache (routeCacheFile files);
     requests := [] |}.

(** The cache file is absent or is one that [saveCache] wrote. *)
Definition writtenBySaveCache (file : option (gmap string JsVal)) : Prop :=
  file = None ∨ ∃ obj, file = saveCache obj.

End Batch.

(* ===================================================================== *)
(** * The interactive tool *)
(* ===================================================================== *)

Module Interactive.
Import Js.

(** ** Strings of the page *)

(** The text of the page is a sequence of UTF-16 code units, so that
    [split] and [trim] see the characters the runtime sees. *)
Abbreviation JsString := (list N).

(** An ASCII literal as a page string. *)
Definition str (s : string) : JsString :=
  N_of_ascii <$> String.list_ascii_of_string s.

(** WhiteSpace and LineTerminator, the code points that [trim] strips. *)
Definition isWhiteSpace (c : N) : bool :=
  bool_decide (c ∈ [ 0x9; 0xA; 0xB; 0xC; 0xD; 0x20; 0xA0; 0x1680;
                     0x2000; 0x2001; 0x2002; 0x2003; 0x2004; 0x2005;
                     0x2006; 0x2007; 0x2008; 0x2009; 0x200A;
                     0x2028; 0x2029; 0x202F; 0x205F; 0x3000; 0xFEFF ]%N).

Fixpoint trimStart (s : JsString) : JsString :=
  match s with
  | c :: s' => if isWhiteSpace c then trimStart s' else s
  | [] => []
  end.

(** [s.trim()]. *)
Definition trim (s : JsString) : JsString :=
  reverse (trimStart (reverse (trimStart s))).

(** [s.split("\n")]: the pieces between line feeds; a text without one is
    a single piece. *)
Fixpoint splitLines (s : JsString) : list JsString :=
  match s with
  | [] => [[]]
  | c :: s' =>
      if (c =? 0xA)%N then [] :: splitLines s'
      else match splitLines s' with
           | line :: lines => (c :: line) :: lines
           | [] => [[c]]
           end
  end.

(** ** Page, requests and responses *)

(** The texts the tool shows or throws: the literals of the source and
    its template literals with their holes. *)
Inductive Text : Type :=
| Literal (s : string)
| GeocodingFailedFor (address : JsString) (status : nat)
| NoMatchFoundFor (address : JsString)
| DirectionsFailed (status : nat)
| TotalDistance (miles : Fixed).

(** A thrown text is falsy when it is the empty string. *)
Definition textTruthy (t : Text) : bool :=
  match t with
  | Literal s => negb (bool_decide (s = ""))
  | _ => true
  end.

(** A row of the legs table: the four cells of the template. *)
Record Row : Type := {
  rowIndex : nat;
  rowFrom : JsString;
  rowTo : JsString;
  rowMiles : Fixed
}.

(** The elements of the page that the tool writes. *)
Record UI : Type := {
  statusText : Text;
  statusError : bool;
  resultsHidden : bool;
  legsRows : list Row;
  totalMilesText : Text;
  calculateDisabled : bool
}.

(** What the tool reads from the page. *)
Record Inputs : Type := {
  locationsValue : JsString;
  roundTripChecked : bool
}.

(** The object [{ address, lon, lat }] of a geocoded location. *)
Record Geocoded : Type := {
  address : JsString;
  lon : JsVal;
  lat : JsVal
}.

Inductive Request : Type :=
| GeocodeRequest (address : JsString)
| DirectionsRequest (coordinates : list (JsVal * JsVal)).

Inductive GeoResponse : Type :=
| GeoThrows (message : string)
| GeoNotOk (status : nat)
| GeoNoFeatures
| GeoCenter (lon lat : JsVal).

(** A leg of a route, of which the tool reads the distance. *)
Record Leg : Type := { legDistance : JsVal }.

(** The first route of a response: its [distance], and its [legs], with
    [None] for a missing or [null] field. *)
Record Route : Type := {
  distance : JsVal;
  legs : option (list Leg)
}.

Inductive RouteResponse : Type :=
| RouteThrows (message : string)
| RouteNotOk (status : nat)
| RouteNoRoutes
| RouteFound (route : Route).

(** The services, answering by the number of requests issued before. *)
Record Network : Type := {
  geocoding : nat → JsString → GeoResponse;
  directions : nat → list (JsVal * JsVal) → RouteResponse
}.

(** A result or a thrown error with its message. *)
Inductive Result (A : Type) : Type :=
| Ok (a : A)
| Error (message : Text).
Arguments Ok {A} a.
Arguments Error {A} message.

(** ** Utils *)

(** [function setStatus(message, isError = false)]. *)
Definition setStatus (message : Text) (isError : bool) (ui : UI) : UI :=
  {| statusText := if textTruthy message then message else Literal "";
     statusError := isError;
     resultsHidden := resultsHidden ui;
     legsRows := legsRows ui;
     totalMilesText := totalMilesText ui;
     calculateDisabled := calculateDisabled ui |}.

(** [function metersToMiles(meters)]. *)
Definition metersToMiles (meters : JsVal) : float :=
  (ToNumber meters / 1609.344)%float.

(** [function formatMiles(miles)]. *)
Definition formatMiles (miles : float) : Fixed := toFixed2 miles.

(** ** API calls *)

(** [async function geocodeAddress(address)], from the response on. *)
Definition geocodeAddress (address : JsString) (rsp : GeoResponse) : Result Geocoded :=
  match rsp with
  | GeoThrows message => Error (Literal message)
  | GeoNotOk status => Error (GeocodingFailedFor address status)
  | GeoNoFeatures => Error (NoMatchFoundFor address)
  | GeoCenter lon lat => Ok {| address := address; lon := lon; lat := lat |}
  end.

(** [async function getRoute(coordinates)], from the response on. *)
Definition getRoute (rsp : RouteResponse) : Result Route :=
  match rsp with
  | RouteThrows message => Error (Literal message)
  | RouteNotOk status => Error (DirectionsFailed status)
  | RouteNoRoutes => Error (Literal "No route found for given locations")
  | RouteFound route => Ok route
  end.

(** [Promise.all(locations.map((loc) => geocodeAddress(loc)))]: the
    requests all go out, in the order of the list, before any answer is
    looked at.  [first] is the number of requests issued before.
    [Promise.all] rejects with the failure that settles first; the
    answers are taken to settle in the order of the requests, so when
    several lookups fail the error kept is that of the earliest
    location.  Which of several errors is shown is used by no theorem
    below. *)
Fixpoint geocodeAll (net : Network) (first : nat) (locations : list JsString)
    : Result (list Geocoded) :=
  match locations with
  | [] => Ok []
  | loc :: rest =>
      match geocodeAddress loc (geocoding net first loc) with
      | Error message => Error message
      | Ok g =>
          match geocodeAll net (S first) rest with
          | Error message => Error message
          | Ok gs => Ok (g :: gs)
          end
      end
  end.

(** ** Main logic *)

(** [geocoded[i].address]; past the end of the array the read throws. *)
Definition addressAt (geocoded : list Geocoded) (i : nat) : Result JsString :=
  match geocoded !! i with
  | Some g => Ok (address g)
  | None => Error (Literal "Cannot read properties of undefined (reading 'address')")
  end.

(** One row of the table, for the leg from [idx] to [idx + 1]. *)
Definition legRow (geocoded : list Geocoded) (idx : nat) (miles : float) : Result Row :=
  match addressAt geocoded idx with
  | Error message => Error message
  | Ok from =>
      match addressAt geocoded (idx + 1) with
      | Error message => Error message
      | Ok to =>
          Ok {| rowIndex := idx + 1; rowFrom := from; rowTo := to;
                rowMiles := formatMiles miles |}
      end
  end.

(** The fallback loop, [for (let i = 0; i < geocoded.length - 1; i++)]:
    [count] iterations from [i], appending to [rows].  The rows appended
    before a throw stay in the table. *)
Fixpoint fallbackRows (geocoded : list Geocoded) (totalMeters : JsVal)
    (count i : nat) (rows : list Row) : list Row * option Text :=
  match count with
  | O => (rows, None)
  | S count' =>
      let miles := metersToMiles totalMeters in
      match legRow geocoded i miles with
      | Error message => (rows, Some message)
      | Ok row => fallbackRows geocoded totalMeters count' (S i) (rows ++ [row])
      end
  end.

(** [legs.forEach((leg, idx) => ...)], from index [idx]. *)
Fixpoint legRows (geocoded : list Geocoded) (legs : list Leg) (idx : nat)
    (rows : list Row) : list Row * option Text :=
  match legs with
  | [] => (rows, None)
  | leg :: legs' =>
      let legMiles := metersToMiles (legDistance leg) in
      match legRow geocoded idx legMiles with
      | Error message => (rows, Some message)
      | Ok row => legRows geocoded legs' (S idx) (rows ++ [row])
      end
  end.

(** Step 3 of [calculateMileage], the per-leg breakdown: the rows
    appended to the table and the error thrown on the way, if any. *)
Definition perLegBreakdown (geocoded : list Geocoded) (route : Route)
    : list Row * option Text :=
  let totalMeters := distance route in
  let legs := match legs route with Some ls => ls | None => [] end in
  if bool_decide (length legs = 0)%nat
  then fallbackRows geocoded totalMeters (length geocoded - 1) 0 []
  else legRows geocoded legs 0 [].

(** The lines of the text area that are not blank, trimmed. *)
Definition enteredLocations (value : JsString) : list JsString :=
  filter (λ l, (0 < length l)%nat) (trim <$> splitLines value).

(** The placeholder of the source for the access token. *)
Definition PLACEHOLDER_TOKEN : string := "YOUR_MAPBOX_ACCESS_TOKEN_HERE".

(** [async function calculateMileage()], for the access token
    [MAPBOX_TOKEN] the file is configured with.  It returns the page
    after the call and the requests issued, in order. *)
Definition calculateMileage (MAPBOX_TOKEN : string) (net : Network)
    (inputs : Inputs) (ui : UI) : UI * list Request :=
  (* Reset UI state *)
  let ui := setStatus (Literal "") false ui in
  let ui := {| statusText := statusText ui; statusError := statusError ui;
               resultsHidden := true; legsRows := [];
               totalMilesText := Literal "";
               calculateDisabled := calculateDisabled ui |} in
  let locations := enteredLocations (locationsValue inputs) in
  if bool_decide (length locations < 2)%nat then
    (setStatus (Literal "Enter at least two locations.") true ui, [])
  else if bool_decide (MAPBOX_TOKEN = "") || bool_decide (MAPBOX_TOKEN = PLACEHOLDER_TOKEN) then
    (setStatus (Literal "You need to set your Mapbox token in app.js before this will work.") true ui, [])
  else
    (* Round trip option: append first location to the end *)
    let locations : list JsString :=
      if roundTripChecked inputs then (locations ++ take 1 locations)%list
      else locations in
    let ui := setStatus (Literal "Geocoding locations...") false ui in
    let disabled (b : bool) (ui : UI) :=
      {| statusText := statusText ui; statusError := statusError ui;
         resultsHidden := resultsHidden ui; legsRows := legsRows ui;
         totalMilesText := totalMilesText ui; calculateDisabled := b |} in
    let ui := disabled true ui in
    let geoRequests : list Request := GeocodeRequest <$> locations in
    (* catch: show the message; finally: enable the button again *)
    let caught (message : Text) (ui : UI) :=
      disabled false
        (setStatus (if textTruthy message then message
                    else Literal "Something went wrong.") true ui) in
    match geocodeAll net 0 locations with
    | Error message => (caught message ui, geoRequests)
    | Ok geocoded =>
        let ui := setStatus (Literal "Requesting route and calculating distance...") false ui in
        let coordinates : list (JsVal * JsVal) :=
          (λ c, (lon c, lat c)) <$> geocoded in
        let allRequests := (geoRequests ++ [DirectionsRequest coordinates])%list in
        match getRoute (directions net (length geoRequests) coordinates) with
        | Error message => (caught message ui, allRequests)
        | Ok route =>
            let totalMeters := distance route in
            let totalMiles := metersToMiles totalMeters in
            let rendered := perLegBreakdown geocoded route in
            let ui := {| statusText := statusText ui; statusError := statusError ui;
                         resultsHidden := resultsHidden ui;
                         legsRows := rendered.1;
                         totalMilesText := totalMilesText ui;
                         calculateDisabled := calculateDisabled ui |} in
            match rendered.2 with
            | Some message => (caught message ui, allRequests)
            | None =>
                let ui := {| statusText := statusText ui; statusError := statusError ui;
                             resultsHidden := false;
                             legsRows := legsRows ui;
                             totalMilesText := TotalDistance (formatMiles totalMiles);
                             calculateDisabled := calculateDisabled ui |} in
                (disabled false (setStatus (Literal "Done.") false ui), allRequests)
            end
        end
    end.

(** ** Vocabulary of the properties *)

(** The locations that are geocoded: the entered ones, with the first
    one again at the end for a round trip. *)
Definition routeLocations (inputs : Inputs) : list JsString :=
  let entered := enteredLocations (locationsValue inputs) in
  if roundTripChecked inputs then (entered ++ take 1 entered)%list else entered.

(** The fallback row number [i + 1]: from location [i] to location
    [i + 1], showing the whole distance in miles. *)
Definition fallbackRow (locations : list JsString) (totalMeters : JsVal)
    (i : nat) : Row :=
  {| rowIndex := i + 1;
     rowFrom := locations !!! i;
     rowTo := locations !!! (i + 1)%nat;
     rowMiles := formatMiles (metersToMiles totalMeters) |}.

(** The access token is set. *)
Definition tokenSet (MAPBOX_TOKEN : string) : Prop :=
  MAPBOX_TOKEN ≠ "" ∧ MAPBOX_TOKEN ≠ PLACEHOLDER_TOKEN.

(** The row of leg number [i + 1]: from location [i] to location
    [i + 1], showing the distance of the leg in miles. *)
Definition legRowOf (locations : list JsString) (i : nat) (leg : Leg) : Row :=
  {| rowIndex := i + 1;
     rowFrom := locations !!! i;
     rowTo := locations !!! (i + 1)%nat;
     rowMiles := formatMiles (metersToMiles (legDistance leg)) |}.

(** The string neither starts nor ends with a character that [trim]
    strips. *)
Definition trimmed (s : JsString) : Prop :=
  (∀ c, head s = Some c → isWhiteSpace c = false)
  ∧ (∀ c, last s = Some c → isWhiteSpace c = false).

(** The text that [setStatus] puts in the status line. *)
Definition shown (message : Text) : Text :=
  if textTruthy message then message else Literal "".

(** The page after an input that is rejected: the error, nothing else
    shown, the button as it was. *)
Definition rejectedPage (message : Text) (ui : UI) : UI :=
  {| statusText := shown message; statusError := true; resultsHidden := true;
     legsRows := []; totalMilesText := Literal "";
     calculateDisabled := calculateDisabled ui |}.

(** The page after a throw inside the [try]: the message of the error,
    the results hidden, the rows appended so far, the button enabled. *)
Definition failedPage (message : Text) (rows : list Row) : UI :=
  {| statusText := shown (if textTruthy message then message
                          else Literal "Something went wrong.");
     statusError := true; resultsHidden := true;
     legsRows := rows; totalMilesText := Literal "";
     calculateDisabled := false |}.

(** The page after a call that went through. *)
Definition donePage (rows : list Row) (total : Fixed) : UI :=
  {| statusText := Literal "Done."; statusError := false; resultsHidden := false;
     legsRows := rows; totalMilesText := TotalDistance total;
     calculateDisabled := false |}.


End Interactive.

Module InteractiveExamples.
Import Js Interactive.

Definition blankPage : UI :=
  {| statusText := Literal ""; statusError := false; resultsHidden := true;
     legsRows := []; totalMilesText := Literal ""; calculateDisabled := false |}.

Definition TOKEN : string := "pk.example".

(** Three stops, with surrounding blanks and an empty line. *)
Definition threeStops : Inputs :=
  {| locationsValue :=
       (str "Springfield, IL" ++ [0xA] ++ str "  Chicago, IL " ++ [0xA; 0xA]
        ++ str "Peoria, IL" ++ [0xA])%list%N;
     roundTripChecked := false |}.

(** One stop and blank lines. *)
Definition oneStop : Inputs :=
  {| locationsValue := (str "Springfield, IL" ++ [0xA; 0x20; 0x9; 0xA])%list%N;
     roundTripChecked := true |}.

(** A routing service that reports 5000 m and no legs. *)
Definition noLegs5000 : Network :=
  {| geocoding := λ _ _, GeoCenter (JNum (-89.65)%float) (JNum 39.78%float);
     directions := λ _ _,
       RouteFound {| distance := JNum 5000%float; legs := Some [] |} |}.

(** A routing service that reports legs of 1000 m and 2000 m and a total
    of 3000 m. *)
Definition twoLegs3000 : Network :=
  {| geocoding := λ _ _, GeoCenter (JNum (-89.65)%float) (JNum 39.78%float);
     directions := λ _ _,
       RouteFound {| distance := JNum 3000%float;
                     legs := Some [ {| legDistance := JNum 1000%float |};
                                    {| legDistance := JNum 2000%float |} ] |} |}.

(** A routing service that reports three legs, whatever the number of
    stops. *)
Definition threeLegs : Network :=
  {| geocoding := λ _ _, GeoCenter (JNum (-89.65)%float) (JNum 39.78%float);
     directions := λ _ _,
       RouteFound {| distance := JNum 6000%float;
                     legs := Some [ {| legDistance := JNum 1000%float |};
                                    {| legDistance := JNum 2000%float |};
                                    {| legDistance := JNum 3000%float |} ] |} |}.

(** A geocoding service that finds no match for the second request. *)
Definition secondNotFound : Network :=
  {| geocoding := λ n _,
       if bool_decide (n = 1%nat) then GeoNoFeatures
       else GeoCenter (JNum (-89.65)%float) (JNum 39.78%float);
     directions := λ _ _,
       RouteFound {| distance := JNum 5000%float; legs := Some [] |} |}.

End InteractiveExamples.

(* ===================================================================== *)
(** * Concrete services and configurations *)
(* ===================================================================== *)

Module Examples.
Import Js Batch.

Definition emptyState : State :=
  {| geoCache := ∅; routeCache := ∅; requests := [] |}.

(** No cache file and no table yet: the first run. *)
Definition noFiles : Files :=
  {| geoCacheFile := None; routeCacheFile := None; mileageTableFile := None |}.

(** A service for which every route is one mile long. *)
Definition oneMile : Network :=
  {| geocoding := λ _ _, GeoCenter (JNum (-89.65)%float) (JNum 39.78%float);
     directions := λ _ _ _ _ _, RouteDistance (JNum 1609.344%float) |}.

(** A service for which every route has length zero, as between two
    identical coordinates. *)
Definition zeroMeters : Network :=
  {| geocoding := λ _ _, GeoCenter (JNum (-89.65)%float) (JNum 39.78%float);
     directions := λ _ _ _ _ _, RouteDistance (JNum 0%float) |}.

(** A service whose routes are as many miles long as requests were
    issued before. *)
Definition milesByRequest : Network :=
  {| geocoding := λ _ _, GeoCenter (JNum (-89.65)%float) (JNum 39.78%float);
     directions := λ n _ _ _ _,
       RouteDistance
         (JNum (SF2Prim (binary_normalize prec emax (Z.of_nat n) 0 false)
                * 1609.344)%float) |}.

(** Two names for one address. *)
Definition sameAddress : Alias :=
  [ ("HOME", "123 Fake St, Springfield IL");
    ("OFFICE", "123 Fake St, Springfield IL") ].

(** Identifiers that contain the separator of the pair keys. *)
Definition twoWithBar : Alias :=
  [ ("a", "1 First St"); ("a|a", "2 Second St") ].

Definition fourWithBar : Alias :=
  [ ("c", "1 First St"); ("a|b", "2 Second St");
    ("b|c", "3 Third St"); ("a", "4 Fourth St") ].

(** A route cache that holds zero meters for a pair. *)
Definition zeroCached : State :=
  {| geoCache := ∅;
     routeCache := {[ "HOME|OFFICE" := JNum 0%float ]};
     requests := [] |}.

(** Towns on a line: the geocoding service places the address of
    request number n at longitude n, and the routing service reports one
    mile per degree of longitude between the two coordinates. *)
Definition townsOnALine : Network :=
  {| geocoding := λ n _,
       GeoCenter (JNum (SF2Prim (binary_normalize prec emax (Z.of_nat n) 0 false)))
                 (JNum 40%float);
     directions := λ _ lonA _ lonB _,
       RouteDistance
         (JNum (abs (ToNumber lonB - ToNumber lonA) * 1609.344)%float) |}.


(** The caches of [sameAddress], complete: the coordinate of the address
    and two miles for the pair. *)
Definition sameAddressGeo : gmap string JsVal :=
  {[ "123 Fake St, Springfield IL" := JCoord (JNum 39.78%float) (JNum (-89.65)%float) ]}.

Definition sameAddressRoute : gmap string JsVal :=
  {[ "HOME|OFFICE" := JNum 3218.688%float ]}.

Definition warmFiles : Files :=
  {| geoCacheFile := Some sameAddressGeo;
     routeCacheFile := Some sameAddressRoute;
     mileageTableFile := None |}.

End Examples.

(* ===================================================================== *)
(** * Properties of the batch script *)
(* ===================================================================== *)

Module BatchFacts.
Import Js Batch Examples.

(** ** The loops *)

Lemma forFrom_forOf {T} (count start : nat) (body : nat → T → M T) acc st :
  forFrom count start body acc st = forOf (seq start count) body acc st.
Proof.
  revert start acc st. induction count as [|count IH]; intros start acc st; [done|].
  simpl. unfold bind. destruct (body start acc st); [apply IH | done].
Qed.

Lemma forPairs_app {T} (l1 l2 : list (nat * nat)) (body : nat → nat → T → M T) acc st :
  forPairs (l1 ++ l2) body acc st
  = bind (forPairs l1 body acc) (forPairs l2 body) st.
Proof.
  revert acc st. induction l1 as [|[i j] l1 IH]; intros acc st; [done|].
  simpl. unfold bind in *. destruct (body i j acc st); [apply IH | done].
Qed.

Lemma forPairs_row {T} (i : nat) (cols : list nat) (body : nat → nat → T → M T) acc st :
  forPairs ((λ j, (i, j)) <$> cols) body acc st = forOf cols (body i) acc st.
Proof.
  revert acc st. induction cols as [|j cols IH]; intros acc st; [done|].
  simpl. unfold bind. destruct (body i j acc st); [apply IH | done].
Qed.

Lemma nested_rows_forPairs {T} (n count start : nat) (body : nat → nat → T → M T) acc st :
  forFrom count start (λ i acc, forFrom (n - (i + 1)) (i + 1) (body i) acc) acc st
  = forPairs (i ← seq start count; (λ j, (i, j)) <$> seq (S i) (n - S i)) body acc st.
Proof.
  revert start acc st. induction count as [|count IH]; intros start acc st; [done|].
  simpl seq. rewrite bind_cons, forPairs_app. simpl forFrom. unfold bind.
  rewrite Nat.add_1_r, forFrom_forOf, forPairs_row.
  destruct (forOf _ _ _ _); [apply IH | done].
Qed.

(** The nested loops visit the index pairs in the order of [pairIndices],
    whatever the body does. *)
Lemma nested_loops_forPairs {T} (n : nat) (body : nat → nat → T → M T) acc st :
  forRange 0 n (λ i acc, forRange (i + 1) n (body i) acc) acc st
  = forPairs (pairIndices n) body acc st.
Proof.
  unfold forRange, pairIndices. rewrite Nat.sub_0_r. apply nested_rows_forPairs.
Qed.

(** ** The enumeration *)

Lemma elem_of_pairIndices (n i j : nat) :
  (i, j) ∈ pairIndices n ↔ (i < j < n)%nat.
Proof.
  unfold pairIndices. rewrite list_elem_of_bind. split.
  - intros (i' & Hrow & Hi). apply list_elem_of_fmap in Hrow as (j' & Heq & Hj).
    inversion Heq; subst. apply elem_of_seq in Hj. lia.
  - intros H. exists i. split.
    + apply list_elem_of_fmap. exists j. split; [done|]. apply elem_of_seq. lia.
    + apply elem_of_seq. lia.
Qed.

Lemma NoDup_pairIndices (n : nat) : NoDup (pairIndices n).
Proof.
  unfold pairIndices. apply NoDup_bind.
  - intros i1 i2 [a b] _ _ H1 H2.
    apply list_elem_of_fmap in H1 as (? & H1 & _), H2 as (? & H2 & _). congruence.
  - intros i _. apply NoDup_fmap_2; [|apply NoDup_seq]. intros ???; congruence.
  - apply NoDup_seq.
Qed.

Lemma sorted_row (i start count : nat) :
  StronglySorted lexLt ((λ j, (i, j)) <$> seq start count).
Proof.
  revert start. induction count as [|count IH]; intros start; simpl; constructor; [apply IH|].
  apply Forall_forall. intros [a b] (j & Heq & Hj)%list_elem_of_fmap.
  inversion Heq; subst. apply elem_of_seq in Hj. right. simpl. lia.
Qed.

Lemma sorted_rows (n start count : nat) :
  StronglySorted lexLt (i ← seq start count; (λ j, (i, j)) <$> seq (S i) (n - S i)).
Proof.
  revert start. induction count as [|count IH]; intros start; [constructor|].
  simpl. apply StronglySorted_app_2; [|apply sorted_row|apply IH].
  intros [a b] [c d] (j & Heq & _)%list_elem_of_fmap (i' & Hrow & Hi)%list_elem_of_bind.
  apply list_elem_of_fmap in Hrow as (j' & Heq' & _).
  inversion Heq; inversion Heq'; subst. apply elem_of_seq in Hi. left. simpl. lia.
Qed.

Lemma length_rows (n count start : nat) :
  (start + count = n)%nat →
  (2 * length (i ← seq start count; (λ j, (i, j)) <$> seq (S i) (n - S i))
   = count * (count - 1))%nat.
Proof.
  revert start. induction count as [|count IH]; intros start Hn; [done|].
  simpl seq. rewrite bind_cons, length_app, length_fmap, length_seq.
  specialize (IH (S start) ltac:(lia)).
  replace (n - S start)%nat with count by lia. nia.
Qed.

Lemma length_pairIndices (n : nat) :
  (2 * length (pairIndices n) = n * (n - 1))%nat.
Proof. apply length_rows. done. Qed.

(** ** Pairs of identifiers *)

Lemma at_lookup (keys : list string) (i : nat) (A : string) :
  keys !! i = Some A → at_ keys i = A.
Proof. unfold at_. by intros ->. Qed.

Lemma at_elem_of (keys : list string) (i : nat) :
  (i < length keys)%nat → at_ keys i ∈ keys ∧ keys !! i = Some (at_ keys i).
Proof.
  intros Hi. destruct (lookup_lt_is_Some_2 keys i Hi) as [A HA].
  rewrite (at_lookup _ _ _ HA). split; [by eapply list_elem_of_lookup_2|done].
Qed.

Lemma at_inj (keys : list string) (i j : nat) :
  NoDup keys → (i < length keys)%nat → (j < length keys)%nat →
  at_ keys i = at_ keys j → i = j.
Proof.
  intros Hnd Hi Hj Heq.
  destruct (at_elem_of keys i Hi) as [_ H1], (at_elem_of keys j Hj) as [_ H2].
  rewrite Heq in H1. by eapply NoDup_lookup.
Qed.

Lemma elem_of_keyPairs (keys : list string) (A B : string) :
  (A, B) ∈ keyPairs keys ↔
  ∃ i j, (i < j < length keys)%nat ∧ keys !! i = Some A ∧ keys !! j = Some B.
Proof.
  unfold keyPairs. rewrite list_elem_of_fmap. split.
  - intros ([i j] & Heq & Hin). apply elem_of_pairIndices in Hin.
    unfold keysAt in Heq. simpl in Heq. inversion Heq; subst. exists i, j. split; [done|].
    split; apply at_elem_of; lia.
  - intros (i & j & Hij & HA & HB). exists (i, j). unfold keysAt. simpl.
    rewrite (at_lookup _ _ _ HA), (at_lookup _ _ _ HB).
    split; [done|]. by apply elem_of_pairIndices.
Qed.

Lemma NoDup_keyPairs (keys : list string) :
  NoDup keys → NoDup (keyPairs keys).
Proof.
  intros Hnd. unfold keyPairs. apply NoDup_fmap_2_strong; [|apply NoDup_pairIndices].
  intros [i j] [i' j'] Hin Hin' Heq.
  apply elem_of_pairIndices in Hin, Hin'. unfold keysAt in Heq. simpl in Heq. inversion Heq.
  f_equal; eapply at_inj; eauto; lia.
Qed.

Lemma keyPairs_irrefl (keys : list string) (A : string) :
  NoDup keys → (A, A) ∉ keyPairs keys.
Proof.
  intros Hnd (i & j & Hij & Hi & Hj)%elem_of_keyPairs.
  pose proof (NoDup_lookup _ _ _ _ Hnd Hi Hj). lia.
Qed.

Lemma keyPairs_asym (keys : list string) (A B : string) :
  NoDup keys → (A, B) ∈ keyPairs keys → (B, A) ∉ keyPairs keys.
Proof.
  intros Hnd (i & j & Hij & Hi & Hj)%elem_of_keyPairs
             (i' & j' & Hij' & Hi' & Hj')%elem_of_keyPairs.
  pose proof (NoDup_lookup _ _ _ _ Hnd Hi Hj').
  pose proof (NoDup_lookup _ _ _ _ Hnd Hj Hi'). lia.
Qed.

Lemma keyPairs_total (keys : list string) (A B : string) :
  A ∈ keys → B ∈ keys → A ≠ B →
  (A, B) ∈ keyPairs keys ∨ (B, A) ∈ keyPairs keys.
Proof.
  intros [a Ha]%list_elem_of_lookup_1 [b Hb]%list_elem_of_lookup_1 Hne.
  pose proof (lookup_lt_Some _ _ _ Ha). pose proof (lookup_lt_Some _ _ _ Hb).
  destruct (Nat.lt_total a b) as [Hlt|[->|Hlt]].
  - left. apply elem_of_keyPairs. exists a, b. split_and!; [lia|lia|done|done].
  - congruence.
  - right. apply elem_of_keyPairs. exists b, a. split_and!; [lia|lia|done|done].
Qed.

Lemma keyPairs_elem_keys (keys : list string) (A B : string) :
  (A, B) ∈ keyPairs keys → A ∈ keys ∧ B ∈ keys.
Proof.
  intros (i & j & Hij & Hi & Hj)%elem_of_keyPairs.
  split; by eapply list_elem_of_lookup_2.
Qed.

(** C6: the two nested loops of the script run their body on the index
    pairs of [pairIndices], in that order; these are exactly the pairs
    (i, j) with i < j < N, each once, in ascending lexicographic order,
    N(N-1)/2 of them; and for identifiers with distinct keys every
    unordered pair of distinct identifiers appears once, in one
    orientation only, and no identifier is paired with itself. *)
Theorem C6_pair_enumeration (net : Network) (keys : list string)
    (coords : gmap string JsVal) (table : Table) (st : State) :
  let n := length keys in
  pairLoop net keys coords table st
  = forPairs (pairIndices n) (pairStep net keys coords) table st
  ∧ (∀ i j, (i, j) ∈ pairIndices n ↔ (i < j < n)%nat)
  ∧ NoDup (pairIndices n)
  ∧ StronglySorted lexLt (pairIndices n)
  ∧ (2 * length (pairIndices n) = n * (n - 1))%nat
  ∧ (NoDup keys →
       NoDup (keyPairs keys)
       ∧ (∀ A, (A, A) ∉ keyPairs keys)
       ∧ (∀ A B, A ∈ keys → B ∈ keys → A ≠ B →
            ((A, B) ∈ keyPairs keys ∨ (B, A) ∈ keyPairs keys)
            ∧ ¬ ((A, B) ∈ keyPairs keys ∧ (B, A) ∈ keyPairs keys))).
Proof.
  intros n. split_and!.
  - apply nested_loops_forPairs.
  - apply elem_of_pairIndices.
  - apply NoDup_pairIndices.
  - apply sorted_rows.
  - apply length_pairIndices.
  - intros Hnd. split_and!.
    + by apply NoDup_keyPairs.
    + intros A. by apply keyPairs_irrefl.
    + intros A B HA HB Hne. split; [by apply keyPairs_total|].
      intros [H1 H2]. by eapply keyPairs_asym.
Qed.

(** ** Pair keys *)

Lemma append_nil_l (s : string) : "" ++ s = s.
Proof. reflexivity. Qed.

Lemma append_cons (a : ascii) (s t : string) : String a s ++ t = String a (s ++ t).
Proof. reflexivity. Qed.

Ltac norm_append H :=
  repeat first [rewrite append_nil_l in H | rewrite append_cons in H].

Lemma noBar_cons (a : ascii) (s : string) :
  noBar (String a s) ↔ a ≠ "|"%char ∧ noBar s.
Proof.
  unfold noBar. simpl. rewrite not_elem_of_cons.
  split; intros [H1 H2]; split; congruence.
Qed.

Lemma noBar_app_bar (A B : string) : ¬ noBar (A ++ "|" ++ B).
Proof.
  induction A as [|a A IH]; intros H; norm_append H;
    apply noBar_cons in H as [? ?]; auto.
Qed.

(** A key [C|D] of two identifiers without the separator splits in one
    way only. *)
Lemma pairKey_split (A B C D : string) :
  noBar C → noBar D → A ++ "|" ++ B = C ++ "|" ++ D → A = C ∧ B = D.
Proof.
  revert A. induction C as [|c C IH]; intros A HC HD Heq.
  - destruct A as [|a A]; norm_append Heq.
    + by injection Heq as ->.
    + injection Heq as -> <-. destruct (noBar_app_bar A B HD).
  - apply noBar_cons in HC as [Hc HC]. destruct A as [|a A].
    + rewrite append_nil_l, !append_cons in Heq. by injection Heq as <- _.
    + rewrite !append_cons in Heq. injection Heq as -> Heq.
      destruct (IH A HC HD Heq) as [-> ->]; done.
Qed.

(** ** The caches *)

Lemma get_insert_eq (cache : gmap string JsVal) (k : string) (v : JsVal) :
  get (<[k := v]> cache) k = v.
Proof. unfold get. by rewrite lookup_insert_eq. Qed.

Lemma get_lookup_eq (c c' : gmap string JsVal) (k : string) :
  c' !! k = c !! k → get c' k = get c k.
Proof. unfold get. by intros ->. Qed.

Lemma field_Ret name coord st v st' :
  field name coord st = Ret v st' → st' = st.
Proof. destruct coord; simpl; unfold ret, throw; congruence. Qed.

Lemma geocode_hit net address st :
  truthy (get (geoCache st) address) = true →
  geocode net address st = Ret (get (geoCache st) address) st.
Proof. intros H. unfold geocode, bind, readGeoCache. by rewrite H. Qed.

Lemma geocode_Ret net address st v st' :
  geocode net address st = Ret v st' →
  routeCache st' = routeCache st ∧ truthy v = true.
Proof.
  unfold geocode, bind, readGeoCache. destruct (truthy _) eqn:Ht.
  - unfold ret. intros [= <- <-]. done.
  - unfold fetchGeocoding. destruct (geocoding _ _ _); unfold throw; try done.
    unfold writeGeoCache. simpl. intros [= <- <-]. simpl.
    by rewrite get_insert_eq.
Qed.

Lemma getMeters_hit net coordA coordB k st :
  truthy (get (routeCache st) k) = true →
  getMeters net coordA coordB k st = Ret (get (routeCache st) k) st.
Proof. intros H. unfold getMeters, bind, readRouteCache. by rewrite H. Qed.

Lemma getMeters_Ret net coordA coordB k st m st' :
  getMeters net coordA coordB k st = Ret m st' →
  geoCache st' = geoCache st
  ∧ get (routeCache st') k = m
  ∧ (∀ k', k' ≠ k → routeCache st' !! k' = routeCache st !! k')
  ∧ (m = get (routeCache st) k ∨ fromService net m).
Proof.
  unfold getMeters, bind, readRouteCache. destruct (truthy _) eqn:Ht.
  - unfold ret. intros [= <- <-]. auto.
  - destruct (field "lon" coordA st) as [lonA s1|] eqn:E1; [|done].
    apply field_Ret in E1 as ->.
    destruct (field "lat" coordA st) as [latA s1|] eqn:E2; [|done].
    apply field_Ret in E2 as ->.
    destruct (field "lon" coordB st) as [lonB s1|] eqn:E3; [|done].
    apply field_Ret in E3 as ->.
    destruct (field "lat" coordB st) as [latB s1|] eqn:E4; [|done].
    apply field_Ret in E4 as ->.
    unfold fetchDirections. destruct (directions _ _ _ _ _ _) eqn:Er; unfold throw; try done.
    unfold writeRouteCache, ret. intros [= <- <-]. simpl. split_and!.
    + done.
    + apply get_insert_eq.
    + intros k' Hk'. by rewrite lookup_insert_ne.
    + right. unfold fromService. eauto 10.
Qed.

(** The geocoding loop leaves the route cache alone. *)
Lemma geocodeLoop_Ret net alias keys coords0 st coords st' :
  forOf keys (geocodeStep net alias) coords0 st = Ret coords st' →
  routeCache st' = routeCache st.
Proof.
  revert coords0 st. induction keys as [|key keys IH]; intros coords0 st; simpl.
  - unfold ret. by intros [= <- <-].
  - unfold bind, geocodeStep at 1. unfold bind.
    destruct (geocode _ _ _) as [c st1|] eqn:Eg; [|done]. unfold ret.
    intros Hrest. apply IH in Hrest. apply geocode_Ret in Eg as [Hr _]. congruence.
Qed.

(** With every address cached the geocoding loop changes nothing. *)
Lemma geocodeLoop_warm net alias keys coords0 st :
  (∀ key, key ∈ keys → truthy (get (geoCache st) (aliasGet alias key)) = true) →
  ∃ coords, forOf keys (geocodeStep net alias) coords0 st = Ret coords st.
Proof.
  revert coords0. induction keys as [|key keys IH]; intros coords0 Hwarm; simpl.
  - by eexists.
  - unfold bind, geocodeStep at 1. unfold bind.
    rewrite geocode_hit by (apply Hwarm; left). unfold ret.
    apply IH. intros key' Hin. apply Hwarm. by right.
Qed.

(** ** The pair loop and the table *)

Lemma tableOf_cons cache AB pairs table :
  tableOf cache (AB :: pairs) table
  = tableOf cache pairs
      (<[AB.2 ++ "|" ++ AB.1 := milesOf (get cache (pairKey AB))]>
         (<[AB.1 ++ "|" ++ AB.2 := milesOf (get cache (pairKey AB))]> table)).
Proof. done. Qed.

Lemma tableOf_snoc cache AB pairs table :
  tableOf cache (pairs ++ [AB]) table
  = <[AB.2 ++ "|" ++ AB.1 := milesOf (get cache (pairKey AB))]>
      (<[AB.1 ++ "|" ++ AB.2 := milesOf (get cache (pairKey AB))]>
         (tableOf cache pairs table)).
Proof. unfold tableOf. by rewrite foldl_app. Qed.

(** The table depends on the cache only at the keys of the pairs. *)
Lemma tableOf_agree c c' pairs table :
  (∀ AB, AB ∈ pairs → c' !! pairKey AB = c !! pairKey AB) →
  tableOf c' pairs table = tableOf c pairs table.
Proof.
  revert table. induction pairs as [|AB pairs IH]; intros table Hagree; [done|].
  rewrite !tableOf_cons. rewrite (get_lookup_eq c c') by (apply Hagree; left).
  apply IH. intros AB' Hin. apply Hagree. by right.
Qed.

Lemma pairStep_Ret net keys coords i j table st table' st' :
  pairStep net keys coords i j table st = Ret table' st' →
  let AB := keysAt keys (i, j) in
  let m := get (routeCache st') (pairKey AB) in
  table' = <[AB.2 ++ "|" ++ AB.1 := milesOf m]> (<[AB.1 ++ "|" ++ AB.2 := milesOf m]> table)
  ∧ geoCache st' = geoCache st
  ∧ (∀ k', k' ≠ pairKey AB → routeCache st' !! k' = routeCache st !! k')
  ∧ (m = get (routeCache st) (pairKey AB) ∨ fromService net m).
Proof.
  unfold pairStep, bind.
  destruct (getMeters _ _ _ _ _) as [m st1|] eqn:Eg; [|done].
  unfold ret. intros [= <- <-].
  apply getMeters_Ret in Eg as (Hgeo & Hm & Hother & Hfrom).
  unfold keysAt, pairKey, milesOf. simpl. rewrite Hm. done.
Qed.

(** What a completed stretch of the pair loop leaves: the table is the
    one the final route cache determines, and the cache has changed at
    the keys of these pairs only, to distances the service returned. *)
Lemma forPairs_Ret net keys coords l table st table' st' :
  NoDup (pairKey <$> (keysAt keys <$> l)) →
  forPairs l (pairStep net keys coords) table st = Ret table' st' →
  table' = tableOf (routeCache st') (keysAt keys <$> l) table
  ∧ geoCache st' = geoCache st
  ∧ (∀ k, k ∉ pairKey <$> (keysAt keys <$> l) → routeCache st' !! k = routeCache st !! k)
  ∧ (∀ k, k ∈ pairKey <$> (keysAt keys <$> l) →
       get (routeCache st') k = get (routeCache st) k
       ∨ fromService net (get (routeCache st') k)).
Proof.
  revert table st. induction l as [|[i j] l IH]; intros table st Hnd.
  - simpl. unfold ret. intros [= <- <-]. split_and!; [done|done|done|].
    intros k Hk. by apply elem_of_nil in Hk.
  - rewrite !fmap_cons in Hnd |- *. simpl forPairs.
    unfold bind. destruct (pairStep _ _ _ _ _ _ _) as [table1 st1|] eqn:Es; [|done].
    intros Hrest. apply NoDup_cons in Hnd as [Hfresh Hnd].
    apply pairStep_Ret in Es as (Ht1 & Hgeo1 & Hother1 & Hfrom1).
    destruct (IH _ _ Hnd Hrest) as (Ht & Hgeo & Hother & Hfrom).
    pose proof (Hother _ Hfresh) as Hkeep.
    split_and!.
    + rewrite Ht, tableOf_cons. f_equal. rewrite Ht1.
      by rewrite (get_lookup_eq _ _ _ Hkeep).
    + congruence.
    + intros k Hk. apply not_elem_of_cons in Hk as [Hne Hk].
      rewrite Hother by done. by apply Hother1.
    + intros k [->|Hk]%elem_of_cons.
      * rewrite (get_lookup_eq _ _ _ Hkeep). done.
      * destruct (Hfrom _ Hk) as [Heq|Hsvc]; [|by right].
        left. rewrite Heq. apply get_lookup_eq, Hother1.
        intros ->. done.
Qed.

(** With every pair cached the pair loop issues nothing and changes
    nothing. *)
Lemma forPairs_warm net keys coords l table st :
  (∀ ij, ij ∈ l → truthy (get (routeCache st) (pairKey (keysAt keys ij))) = true) →
  forPairs l (pairStep net keys coords) table st
  = Ret (tableOf (routeCache st) (keysAt keys <$> l) table) st.
Proof.
  revert table. induction l as [|[i j] l IH]; intros table Hwarm; [done|].
  simpl forPairs. unfold bind, pairStep at 1. unfold bind.
  rewrite getMeters_hit by (apply (Hwarm (i, j)); left).
  unfold ret. rewrite IH by (intros ij Hin; apply Hwarm; by right). done.
Qed.

(** ** Facts about the table of a list of pairs *)

Lemma directedKeys_app (l1 l2 : list (string * string)) :
  directedKeys (l1 ++ l2) = (directedKeys l1 ++ directedKeys l2)%list.
Proof. unfold directedKeys. apply bind_app. Qed.

Lemma elem_of_directedKeys (pairs : list (string * string)) (k : string) :
  k ∈ directedKeys pairs ↔
  ∃ A B, (A, B) ∈ pairs ∧ (k = A ++ "|" ++ B ∨ k = B ++ "|" ++ A).
Proof.
  unfold directedKeys. rewrite list_elem_of_bind. split.
  - intros ([A B] & Hk & Hin). exists A, B. split; [done|].
    simpl in Hk. set_solver.
  - intros (A & B & Hin & Hk). exists (A, B). split; [|done]. simpl. set_solver.
Qed.

Lemma tableOf_lookup_None cache pairs (k : string) :
  k ∉ directedKeys pairs → tableOf cache pairs ∅ !! k = None.
Proof.
  induction pairs as [|AB pairs IH] using rev_ind; intros Hk; [done|].
  rewrite directedKeys_app in Hk. apply not_elem_of_app in Hk as [Hk1 Hk2].
  unfold directedKeys in Hk2. simpl in Hk2.
  rewrite tableOf_snoc, !lookup_insert_ne by set_solver. by apply IH.
Qed.

Lemma tableOf_lookup_pair cache pairs (A B : string) :
  NoDup (directedKeys pairs) → (A, B) ∈ pairs →
  tableOf cache pairs ∅ !! (A ++ "|" ++ B) = Some (milesOf (get cache (A ++ "|" ++ B)))
  ∧ tableOf cache pairs ∅ !! (B ++ "|" ++ A) = Some (milesOf (get cache (A ++ "|" ++ B))).
Proof.
  induction pairs as [|[C D] pairs IH] using rev_ind; intros Hnd Hin.
  - by apply elem_of_nil in Hin.
  - rewrite directedKeys_app in Hnd. apply NoDup_app in Hnd as (Hnd1 & Hdisj & Hnd2).
    unfold directedKeys in Hnd2, Hdisj. simpl in Hnd2, Hdisj.
    apply NoDup_cons in Hnd2 as [Hne _]. rewrite tableOf_snoc. simpl.
    apply elem_of_app in Hin as [Hin|Hin].
    + assert (A ++ "|" ++ B ∈ directedKeys pairs) as H1
        by (apply elem_of_directedKeys; eauto).
      assert (B ++ "|" ++ A ∈ directedKeys pairs) as H2
        by (apply elem_of_directedKeys; eauto).
      apply Hdisj in H1, H2.
      rewrite !lookup_insert_ne by set_solver. by apply IH.
    + apply list_elem_of_singleton in Hin. injection Hin as -> ->.
      unfold pairKey. simpl. split.
      * rewrite lookup_insert_ne by set_solver. by rewrite lookup_insert_eq.
      * by rewrite lookup_insert_eq.
Qed.

Lemma tableOf_size cache pairs :
  NoDup (directedKeys pairs) →
  size (tableOf cache pairs ∅) = (2 * length pairs)%nat.
Proof.
  induction pairs as [|[C D] pairs IH] using rev_ind; intros Hnd; [done|].
  rewrite directedKeys_app in Hnd. apply NoDup_app in Hnd as (Hnd1 & Hdisj & Hnd2).
  unfold directedKeys in Hnd2. simpl in Hnd2.
  apply NoDup_cons in Hnd2 as [Hne _].
  assert (C ++ "|" ++ D ∉ directedKeys pairs) as H1.
  { intros Hin. apply (Hdisj _ Hin). unfold directedKeys. simpl. set_solver. }
  assert (D ++ "|" ++ C ∉ directedKeys pairs) as H2.
  { intros Hin. apply (Hdisj _ Hin). unfold directedKeys. simpl. set_solver. }
  rewrite tableOf_snoc, length_app. simpl.
  rewrite !map_size_insert_None.
  - rewrite IH by done. lia.
  - by apply tableOf_lookup_None.
  - rewrite lookup_insert_ne by set_solver. by apply tableOf_lookup_None.
Qed.

(** ** Distinct pair keys *)

Lemma NoDup_directedKeys (keys : list string) :
  NoDup keys → Forall noBar keys → NoDup (directedKeys (keyPairs keys)).
Proof.
  intros Hnd Hbar. rewrite Forall_forall in Hbar.
  assert (∀ A B, (A, B) ∈ keyPairs keys → noBar A ∧ noBar B) as Hnb.
  { intros A B [HA HB]%keyPairs_elem_keys. auto. }
  unfold directedKeys. apply NoDup_bind.
  - intros [A B] [C D] k HAB HCD Hk1 Hk2. simpl in Hk1, Hk2.
    destruct (Hnb _ _ HAB) as [? ?], (Hnb _ _ HCD) as [? ?].
    assert (k = A ++ "|" ++ B ∨ k = B ++ "|" ++ A) as [->| ->] by set_solver;
    assert (∀ k', k' ∈ [C ++ "|" ++ D; D ++ "|" ++ C] →
                  k' = C ++ "|" ++ D ∨ k' = D ++ "|" ++ C) as Hcases by set_solver;
    destruct (Hcases _ Hk2) as [Heq|Heq];
    apply pairKey_split in Heq as [-> ->]; try done;
    exfalso; by eapply keyPairs_asym.
  - intros [A B] HAB. simpl. destruct (Hnb _ _ HAB) as [? ?].
    apply NoDup_cons. split; [|apply NoDup_singleton].
    intros Heq%list_elem_of_singleton. apply pairKey_split in Heq as [-> _]; [|done..].
    by eapply keyPairs_irrefl.
  - by apply NoDup_keyPairs.
Qed.

Lemma NoDup_directedKeys_take (pairs : list (string * string)) (k : nat) :
  NoDup (directedKeys pairs) → NoDup (directedKeys (take k pairs)).
Proof.
  rewrite <- (take_drop k pairs) at 1. rewrite directedKeys_app.
  by intros (H & _ & _)%NoDup_app.
Qed.

Lemma NoDup_pairKeys (pairs : list (string * string)) :
  NoDup (directedKeys pairs) → NoDup (pairKey <$> pairs).
Proof.
  induction pairs as [|[A B] pairs IH]; intros Hnd; [constructor|].
  change (directedKeys ((A, B) :: pairs))
    with ((A ++ "|" ++ B) :: (B ++ "|" ++ A) :: directedKeys pairs) in Hnd.
  apply NoDup_cons in Hnd as [H1 Hnd]. apply NoDup_cons in Hnd as [H2 Hnd].
  rewrite fmap_cons. apply NoDup_cons. split; [|by apply IH].
  intros ([C D] & Heq & Hin)%list_elem_of_fmap. apply H1. right.
  apply elem_of_directedKeys. exists C, D. split; [done|]. left. done.
Qed.

(** ** The script as a whole *)

Lemma main_mainPrefix net alias st :
  main net alias st
  = mainPrefix net alias (length (pairIndices (length (Object_keys alias)))) st.
Proof.
  unfold main, mainPrefix, bind.
  destruct (forOf _ _ _ _) as [coords st1|]; [|done].
  rewrite firstn_all. unfold pairLoop. rewrite nested_loops_forPairs.
  by destruct (forPairs _ _ _ _).
Qed.

(** What the script has after [k] iterations of the pair loop. *)
Lemma mainPrefix_Ret net alias k st table st' :
  NoDup (Object_keys alias) → Forall noBar (Object_keys alias) →
  mainPrefix net alias k st = Ret table st' →
  let pairs := take k (keyPairs (Object_keys alias)) in
  table = tableOf (routeCache st') pairs ∅
  ∧ NoDup (directedKeys pairs)
  ∧ (∀ AB, AB ∈ pairs →
       get (routeCache st') (pairKey AB) = get (routeCache st) (pairKey AB)
       ∨ fromService net (get (routeCache st') (pairKey AB))).
Proof.
  intros Hnd Hbar. unfold mainPrefix, bind.
  destruct (forOf _ _ _ _) as [coords st1|] eqn:Eg; [|done].
  apply geocodeLoop_Ret in Eg. intros Hrun.
  set (pairs := take k (keyPairs (Object_keys alias))).
  assert (NoDup (directedKeys pairs)) as Hdk
    by (apply NoDup_directedKeys_take, NoDup_directedKeys; done).
  assert (keysAt (Object_keys alias) <$> take k (pairIndices (length (Object_keys alias)))
          = pairs) as Hpairs by (unfold pairs, keyPairs; by rewrite fmap_take).
  apply forPairs_Ret in Hrun; rewrite Hpairs in *; [|by apply NoDup_pairKeys].
  destruct Hrun as (Ht & _ & _ & Hfrom). split_and!; [done|done|].
  intros AB Hin. rewrite <- Eg. apply Hfrom. by apply list_elem_of_fmap_2.
Qed.

(** With every address and pair cached, the script issues nothing,
    leaves the caches as they are, and its table is the one the route
    cache determines, whatever the services would have answered. *)
Lemma warm_main net alias st :
  warm alias st →
  main net alias st
  = Ret (tableOf (routeCache st) (keyPairs (Object_keys alias)) ∅) st.
Proof.
  intros [Hgeo Hroute]. unfold main, bind.
  destruct (geocodeLoop_warm net alias (Object_keys alias) ∅ st Hgeo) as [coords ->].
  unfold pairLoop. rewrite nested_loops_forPairs, forPairs_warm; [done|].
  intros ij Hin. apply Hroute. unfold keyPairs. by apply list_elem_of_fmap_2.
Qed.

Lemma tableOf_sym cache pairs (A B : string) :
  NoDup (directedKeys pairs) →
  (∀ C D, (C, D) ∈ pairs → noBar C ∧ noBar D) →
  tableOf cache pairs ∅ !! (A ++ "|" ++ B) = tableOf cache pairs ∅ !! (B ++ "|" ++ A).
Proof.
  intros Hnd Hnb.
  assert (∀ X Y, X ++ "|" ++ Y ∈ directedKeys pairs →
            tableOf cache pairs ∅ !! (X ++ "|" ++ Y) = tableOf cache pairs ∅ !! (Y ++ "|" ++ X)
            ∧ Y ++ "|" ++ X ∈ directedKeys pairs) as Hin.
  { intros X Y (C & D & HCD & Hk)%elem_of_directedKeys.
    destruct (Hnb _ _ HCD) as [? ?].
    destruct (tableOf_lookup_pair cache pairs C D Hnd HCD) as [H1 H2].
    destruct Hk as [Hk|Hk]; apply pairKey_split in Hk as [-> ->]; try done.
    - split; [congruence|]. apply elem_of_directedKeys. eauto.
    - split; [congruence|]. apply elem_of_directedKeys. eauto. }
  destruct (decide (A ++ "|" ++ B ∈ directedKeys pairs)) as [H|H].
  - by apply Hin.
  - rewrite (tableOf_lookup_None _ _ _ H). symmetry. apply tableOf_lookup_None.
    intros H'. apply H. by apply Hin.
Qed.

Lemma keyPairs_noBar (keys : list string) (k : nat) :
  Forall noBar keys →
  ∀ C D, (C, D) ∈ take k (keyPairs keys) → noBar C ∧ noBar D.
Proof.
  intros Hbar C D Hin%subseteq_take. rewrite Forall_forall in Hbar.
  apply keyPairs_elem_keys in Hin as [? ?]. auto.
Qed.

Lemma length_keyPairs (keys : list string) :
  length (keyPairs keys) = length (pairIndices (length keys)).
Proof. unfold keyPairs. apply length_fmap. Qed.

(** C2 (as amended): for identifiers with distinct keys that do not
    contain the separator "|", every table state that the script goes
    through (the table after any number k of iterations of the pair
    loop) has the two orderings of every pair together: for all A and B
    the entries A|B and B|A are both absent or both present with the same
    value; the pairs processed so far have both entries; and once the
    loop is over (main is the run of all iterations) every two distinct
    identifiers have both. *)
Theorem C2_both_orderings_together (net : Network) (alias : Alias)
    (st : State) (k : nat) (table : Table) (st' : State) :
  NoDup (Object_keys alias) →
  Forall noBar (Object_keys alias) →
  mainPrefix net alias k st = Ret table st' →
  let keys := Object_keys alias in
  (∀ A B, table !! (A ++ "|" ++ B) = table !! (B ++ "|" ++ A))
  ∧ (∀ A B, (A, B) ∈ take k (keyPairs keys) →
       is_Some (table !! (A ++ "|" ++ B)) ∧ is_Some (table !! (B ++ "|" ++ A)))
  ∧ main net alias st = mainPrefix net alias (length (pairIndices (length keys))) st
  ∧ (length (pairIndices (length keys)) ≤ k →
     ∀ A B, A ∈ keys → B ∈ keys → A ≠ B → is_Some (table !! (A ++ "|" ++ B)))%nat.
Proof.
  intros Hnd Hbar Hrun keys.
  destruct (mainPrefix_Ret _ _ _ _ _ _ Hnd Hbar Hrun) as (-> & Hdk & _).
  pose proof (keyPairs_noBar _ k Hbar) as Hnb. fold keys in Hdk, Hnb |- *.
  assert (∀ A B, (A, B) ∈ take k (keyPairs keys) →
            is_Some (tableOf (routeCache st') (take k (keyPairs keys)) ∅ !! (A ++ "|" ++ B))
            ∧ is_Some (tableOf (routeCache st') (take k (keyPairs keys)) ∅ !! (B ++ "|" ++ A)))
    as Hboth.
  { intros A B Hin.
    destruct (tableOf_lookup_pair (routeCache st') _ A B Hdk Hin) as [-> ->]. eauto. }
  split_and!.
  - intros A B. by apply tableOf_sym.
  - done.
  - apply main_mainPrefix.
  - intros Hk A B HA HB Hne. rewrite take_ge in Hboth by (by rewrite length_keyPairs).
    rewrite take_ge by (by rewrite length_keyPairs).
    destruct (keyPairs_total keys A B HA HB Hne) as [Hin|Hin];
      apply Hboth in Hin as [? ?]; done.
Qed.

(** C2, witness: the mapping of the repository, three iterations in. *)
Lemma C2_both_orderings_together_witness :
  match mainPrefix oneMile (LOCATION_ALIAS None) 3 emptyState with
  | Ret table _ =>
      (∀ A B, table !! (A ++ "|" ++ B) = table !! (B ++ "|" ++ A))
      ∧ is_Some (table !! "OFFICE|HOME")
  | Throw _ _ => False
  end.
Proof.
  destruct (mainPrefix oneMile (LOCATION_ALIAS None) 3 emptyState)
    as [table st'|e st'] eqn:Hrun.
  - assert (NoDup (Object_keys (LOCATION_ALIAS None))) as Hnd by compute_done.
    assert (Forall noBar (Object_keys (LOCATION_ALIAS None))) as Hbar by compute_done.
    destruct (C2_both_orderings_together _ _ _ _ _ _ Hnd Hbar Hrun) as (Hsym & Hin & _).
    split; [exact Hsym|].
    apply (Hin "HOME" "OFFICE"). compute_done.
  - vm_compute in Hrun. discriminate Hrun.
Defined.

(** C2, as stated, fails when identifiers contain "|": with the four
    identifiers c, a|b, b|c and a the key a|b|c is written for the pair
    (c, a|b) and again for the pair (b|c, a), and the table ends with
    different values under c|a|b and a|b|c, the two orderings of the
    identifiers c and a|b. *)
Lemma C2_counterexample :
  NoDup (Object_keys fourWithBar)
  ∧ "c" ∈ Object_keys fourWithBar ∧ "a|b" ∈ Object_keys fourWithBar
  ∧ match main milesByRequest fourWithBar emptyState with
    | Ret table _ =>
        table !! ("c" ++ "|" ++ "a|b") = Some 4%float
        ∧ table !! ("a|b" ++ "|" ++ "c") = Some 9%float
        ∧ table !! ("c" ++ "|" ++ "a|b") ≠ table !! ("a|b" ++ "|" ++ "c")
    | Throw _ _ => False
    end.
Proof.
  split_and!; [compute_done..|].
  vm_compute. split_and!; [reflexivity..|].
  intros H. apply (f_equal (λ o, match o with
                                 | Some x => (x =? 4)%float
                                 | None => false
                                 end)) in H.
  vm_compute in H. discriminate H.
Qed.

(** What a completed run has, for identifiers with distinct keys and
    without the separator. *)
Lemma main_Ret net alias st table st' :
  NoDup (Object_keys alias) → Forall noBar (Object_keys alias) →
  main net alias st = Ret table st' →
  let pairs := keyPairs (Object_keys alias) in
  table = tableOf (routeCache st') pairs ∅
  ∧ NoDup (directedKeys pairs)
  ∧ (∀ AB, AB ∈ pairs →
       get (routeCache st') (pairKey AB) = get (routeCache st) (pairKey AB)
       ∨ fromService net (get (routeCache st') (pairKey AB))).
Proof.
  intros Hnd Hbar Hrun. rewrite main_mainPrefix in Hrun.
  apply mainPrefix_Ret in Hrun; [|done..].
  rewrite take_ge in Hrun by (by rewrite length_keyPairs). done.
Qed.

(** C3 (as amended): for N identifiers with distinct keys that do not
    contain the separator "|", the table of a completed run has exactly
    N(N-1) entries, and no entry of the form A|A. *)
Theorem C3_table_size (net : Network) (alias : Alias) (st : State)
    (table : Table) (st' : State) :
  NoDup (Object_keys alias) →
  Forall noBar (Object_keys alias) →
  main net alias st = Ret table st' →
  let n := length (Object_keys alias) in
  size table = (n * (n - 1))%nat
  ∧ (∀ A, table !! (A ++ "|" ++ A) = None).
Proof.
  intros Hnd Hbar Hrun n.
  destruct (main_Ret _ _ _ _ _ Hnd Hbar Hrun) as (-> & Hdk & _). split.
  - rewrite tableOf_size by done. rewrite length_keyPairs. apply length_pairIndices.
  - intros A. apply tableOf_lookup_None.
    intros (C & D & HCD & Hk)%elem_of_directedKeys.
    pose proof (keyPairs_elem_keys _ _ _ HCD) as [HC HD].
    rewrite Forall_forall in Hbar.
    assert (noBar C ∧ noBar D) as [? ?] by auto.
    destruct Hk as [Hk|Hk]; apply pairKey_split in Hk as [-> <-]; try done;
      exact (keyPairs_irrefl _ _ Hnd HCD).
Qed.

(** C3, witness: the four locations of the repository give twelve
    entries. *)
Lemma C3_table_size_witness :
  match main oneMile (LOCATION_ALIAS None) emptyState with
  | Ret table _ => size table = 12%nat ∧ table !! "HOME|HOME" = None
  | Throw _ _ => False
  end.
Proof.
  destruct (main oneMile (LOCATION_ALIAS None) emptyState)
    as [table st'|e st'] eqn:Hrun.
  - assert (NoDup (Object_keys (LOCATION_ALIAS None))) as Hnd by compute_done.
    assert (Forall noBar (Object_keys (LOCATION_ALIAS None))) as Hbar by compute_done.
    destruct (C3_table_size _ _ _ _ _ Hnd Hbar Hrun) as [Hsize Hself].
    split; [exact Hsize|]. apply (Hself "HOME").
  - vm_compute in Hrun. discriminate Hrun.
Defined.

(** C3, as stated, fails when identifiers contain "|": the two distinct
    identifiers a and a|a give the key a|a|a in both orderings, and the
    table has one entry instead of two. *)
Lemma C3_counterexample :
  NoDup (Object_keys twoWithBar)
  ∧ length (Object_keys twoWithBar) = 2%nat
  ∧ match main oneMile twoWithBar emptyState with
    | Ret table _ => size table = 1%nat ∧ size table ≠ (2 * (2 - 1))%nat
    | Throw _ _ => False
    end.
Proof.
  split_and!; [compute_done|done|]. vm_compute. split; [reflexivity|discriminate].
Qed.

(** ** Where the meters of a pair come from *)

Lemma field_Ret_value name coord st v st' :
  field name coord st = Ret v st' → v = coordField name coord ∧ st' = st.
Proof.
  destruct coord; simpl; unfold ret, throw; try done; by intros [= <- <-].
Qed.

(** What [getMeters] returns: the cached value on a hit; on a miss the
    distance in the answer to the request for the two coordinates, which
    it appends to the log and stores under the key. *)
Lemma getMeters_Ret_request net coordA coordB k st m st' :
  getMeters net coordA coordB k st = Ret m st' →
  (truthy (get (routeCache st) k) = true ∧ m = get (routeCache st) k ∧ st' = st)
  ∨ (truthy (get (routeCache st) k) = false
     ∧ routeAnswer net (length (requests st)) coordA coordB = RouteDistance m
     ∧ st' = {| geoCache := geoCache st;
                routeCache := <[k := m]> (routeCache st);
                requests := (requests st ++ [routeRequest coordA coordB])%list |}).
Proof.
  unfold getMeters, bind, readRouteCache. destruct (truthy _) eqn:Ht.
  - unfold ret. intros [= <- <-]. left. done.
  - destruct (field "lon" coordA st) as [lonA s1|] eqn:E1; [|done].
    apply field_Ret_value in E1 as [-> ->].
    destruct (field "lat" coordA st) as [latA s1|] eqn:E2; [|done].
    apply field_Ret_value in E2 as [-> ->].
    destruct (field "lon" coordB st) as [lonB s1|] eqn:E3; [|done].
    apply field_Ret_value in E3 as [-> ->].
    destruct (field "lat" coordB st) as [latB s1|] eqn:E4; [|done].
    apply field_Ret_value in E4 as [-> ->].
    unfold fetchDirections. fold (routeAnswer net (length (requests st)) coordA coordB).
    destruct (routeAnswer _ _ _ _) eqn:Er; unfold throw; try done.
    unfold writeRouteCache, ret. intros [= <- <-]. right. done.
Qed.

Lemma geocode_Ret_entry net address st v st' :
  geocode net address st = Ret v st' →
  truthy v = true
  ∧ get (geoCache st') address = v
  ∧ (∀ k, truthy (get (geoCache st) k) = true → geoCache st' !! k = geoCache st !! k).
Proof.
  unfold geocode, bind, readGeoCache. destruct (truthy _) eqn:Ht.
  - unfold ret. intros [= <- <-]. done.
  - unfold fetchGeocoding. destruct (geocoding _ _ _); unfold throw; try done.
    unfold writeGeoCache. simpl. intros [= <- <-]. simpl.
    rewrite get_insert_eq. split_and!; [done|done|].
    intros k Hk. apply lookup_insert_ne. congruence.
Qed.

(** After the geocoding loop every identifier has, in [coords], the
    truthy value that the geocoding cache holds for its address. *)
Lemma geocodeLoop_coords_entry net alias keys coords0 st coords st' :
  NoDup keys →
  forOf keys (geocodeStep net alias) coords0 st = Ret coords st' →
  (∀ k, truthy (get (geoCache st) k) = true → geoCache st' !! k = geoCache st !! k)
  ∧ (∀ k, k ∉ keys → coords !! k = coords0 !! k)
  ∧ (∀ key, key ∈ keys →
       truthy (get coords key) = true
       ∧ get coords key = get (geoCache st') (aliasGet alias key)).
Proof.
  revert coords0 st. induction keys as [|key keys IH]; intros coords0 st Hnd.
  - simpl. unfold ret. intros [= <- <-]. split_and!; [done|done|].
    intros key Hin. by apply elem_of_nil in Hin.
  - apply NoDup_cons in Hnd as [Hfresh Hnd]. simpl. unfold bind, geocodeStep at 1.
    unfold bind. destruct (geocode _ _ _) as [v st1|] eqn:Eg; [|done].
    unfold ret. intros Hrest.
    apply geocode_Ret_entry in Eg as (Hv & Hentry & Hkeep1).
    destruct (IH _ _ Hnd Hrest) as (Hkeep & Hother & Hkeys).
    split_and!.
    + intros k Hk. rewrite <- (Hkeep1 k Hk). apply Hkeep.
      by rewrite (get_lookup_eq _ _ _ (Hkeep1 k Hk)).
    + intros k [Hne Hk]%not_elem_of_cons.
      rewrite (Hother k Hk). by apply lookup_insert_ne.
    + intros key' [->|Hin]%elem_of_cons; [|by apply Hkeys].
      assert (get coords key = v) as Hc.
      { unfold get. by rewrite (Hother key Hfresh), lookup_insert_eq. }
      rewrite Hc. split; [done|]. rewrite <- Hentry. symmetry.
      apply get_lookup_eq, Hkeep. by rewrite Hentry.
Qed.

(** A completed stretch of the pair loop: the log only grows, and the
    final cache holds, under the key of each pair, what it held at the
    start when that was a hit, and otherwise the distance in the answer
    to the logged request for the coordinates of the two identifiers. *)
Lemma forPairs_provenance net keys coords l table st table' st' :
  NoDup (pairKey <$> (keysAt keys <$> l)) →
  forPairs l (pairStep net keys coords) table st = Ret table' st' →
  requests st `prefix_of` requests st'
  ∧ (∀ i j, (i, j) ∈ l →
       let k := at_ keys i ++ "|" ++ at_ keys j in
       let coordA := get coords (at_ keys i) in
       let coordB := get coords (at_ keys j) in
       (truthy (get (routeCache st) k) = true
        ∧ get (routeCache st') k = get (routeCache st) k)
       ∨ (truthy (get (routeCache st) k) = false
          ∧ ∃ n, requests st' !! n = Some (routeRequest coordA coordB)
                 ∧ routeAnswer net n coordA coordB
                   = RouteDistance (get (routeCache st') k))).
Proof.
  revert table st. induction l as [|[i j] l IH]; intros table st Hnd.
  - simpl. unfold ret. intros [= <- <-]. split; [done|].
    intros i j Hin. by apply elem_of_nil in Hin.
  - rewrite !fmap_cons in Hnd. apply NoDup_cons in Hnd as [Hfresh Hnd].
    simpl forPairs. unfold bind, pairStep at 1. unfold bind.
    destruct (getMeters _ _ _ _ _) as [m st1|] eqn:Eg; [|done].
    unfold ret. intros Hrest.
    destruct (forPairs_Ret _ _ _ _ _ _ _ _ Hnd Hrest) as (_ & _ & Hother & _).
    destruct (IH _ _ Hnd Hrest) as (Hpre & Hpairs).
    pose proof (Hother _ Hfresh) as Hkeep. unfold keysAt, pairKey in Hkeep.
    simpl in Hkeep.
    apply getMeters_Ret_request in Eg as [(Ht & -> & ->)|(Hf & Hans & ->)].
    + split; [done|]. intros i' j' [[= -> ->]|Hin]%elem_of_cons.
      * left. split; [done|]. by apply get_lookup_eq.
      * by apply Hpairs.
    + simpl in Hpre, Hkeep, Hpairs. split.
      * etrans; [|exact Hpre]. by apply prefix_app_r.
      * intros i' j' [[= -> ->]|Hin]%elem_of_cons.
        -- right. split; [done|]. exists (length (requests st)). split.
           ++ eapply prefix_lookup_Some; [|exact Hpre].
              rewrite lookup_app_r by lia. by rewrite Nat.sub_diag.
           ++ rewrite Hans. f_equal. symmetry. unfold get.
              by rewrite Hkeep, lookup_insert_eq.
        -- assert (at_ keys i' ++ "|" ++ at_ keys j' ≠ at_ keys i ++ "|" ++ at_ keys j)
             as Hne.
           { intros Heq. apply Hfresh.
             apply list_elem_of_fmap. exists (keysAt keys (i', j')).
             split; [exact (eq_sym Heq)|]. by apply list_elem_of_fmap_2. }
           specialize (Hpairs i' j' Hin). simpl in Hpairs.
           unfold get in Hpairs |- *. by rewrite lookup_insert_ne in Hpairs.
Qed.

(** C9 (as amended): for identifiers with distinct keys that do not
    contain the separator "|", the value the table of a completed run
    holds under A|B and under B|A is a distance in miles: the meters of
    the pair, divided by 1609.344 and rounded to two decimals.  The
    meters of the pair are the value the route cache ends with under
    A|B, and that is: the value cached there before the run, when it was
    truthy; otherwise the distance in the answer of the routing service
    to the request that the run logged for the coordinates of A and of B,
    longitude and latitude of A first.  The coordinates of A and of B are
    the truthy values the geocoding cache ends with for the addresses of
    A and of B. *)
Theorem C9_table_holds_miles (net : Network) (alias : Alias) (st : State)
    (table : Table) (st' : State) (A B : string) :
  NoDup (Object_keys alias) →
  Forall noBar (Object_keys alias) →
  main net alias st = Ret table st' →
  (A, B) ∈ keyPairs (Object_keys alias) →
  let meters := get (routeCache st') (A ++ "|" ++ B) in
  let miles := parseFloat (toFixed2 (ToNumber meters / 1609.344)%float) in
  let coordA := get (geoCache st') (aliasGet alias A) in
  let coordB := get (geoCache st') (aliasGet alias B) in
  table !! (A ++ "|" ++ B) = Some miles
  ∧ table !! (B ++ "|" ++ A) = Some miles
  ∧ truthy coordA = true
  ∧ truthy coordB = true
  ∧ ((truthy (get (routeCache st) (A ++ "|" ++ B)) = true
      ∧ meters = get (routeCache st) (A ++ "|" ++ B))
     ∨ (truthy (get (routeCache st) (A ++ "|" ++ B)) = false
        ∧ ∃ n, requests st' !! n = Some (routeRequest coordA coordB)
               ∧ routeAnswer net n coordA coordB = RouteDistance meters)).
Proof.
  intros Hnd Hbar Hrun Hin meters miles coordA coordB.
  destruct (main_Ret _ _ _ _ _ Hnd Hbar Hrun) as (Htable & Hdk & _).
  destruct (tableOf_lookup_pair (routeCache st') _ A B Hdk Hin) as [H1 H2].
  rewrite <- Htable in H1, H2.
  unfold main, bind in Hrun.
  destruct (forOf _ _ _ _) as [coords st1|] eqn:Hgeo; [|done].
  pose proof (geocodeLoop_Ret _ _ _ _ _ _ _ Hgeo) as Hroute1.
  apply geocodeLoop_coords_entry in Hgeo as (_ & _ & Hcoords); [|done].
  unfold pairLoop in Hrun. rewrite nested_loops_forPairs in Hrun.
  destruct (forPairs _ _ _ _) as [t s|] eqn:Hpairs; [|done].
  unfold ret in Hrun. injection Hrun as -> ->.
  pose proof (NoDup_pairKeys _ Hdk) as Hpk.
  destruct (forPairs_Ret _ _ _ _ _ _ _ _ Hpk Hpairs) as (_ & Hgeo' & _).
  destruct (forPairs_provenance _ _ _ _ _ _ _ _ Hpk Hpairs) as (_ & Hprov).
  destruct (keyPairs_elem_keys _ _ _ Hin) as [HA HB].
  destruct (Hcoords A HA) as [HtA HcA], (Hcoords B HB) as [HtB HcB].
  unfold coordA, coordB. rewrite Hgeo', <- HcA, <- HcB.
  split_and!; [exact H1|exact H2|done|done|].
  unfold keyPairs in Hin. apply list_elem_of_fmap in Hin as ([i j] & [= -> ->] & Hij).
  specialize (Hprov i j Hij). simpl in Hprov. rewrite Hroute1 in Hprov. exact Hprov.
Qed.

(** C9, witness: towns on a line; HOME is geocoded first and JACOBS
    third, two degrees apart, so the service is asked for the route
    between longitudes 0 and 2 and answers two miles in meters; the table
    holds 2. *)
Lemma C9_table_holds_miles_witness :
  match main townsOnALine (LOCATION_ALIAS None) emptyState with
  | Ret table st' =>
      table !! "HOME|JACOBS" = Some 2%float
      ∧ table !! "JACOBS|HOME" = Some 2%float
      ∧ ∃ n, requests st' !! n
             = Some (DirectionsRequest (JNum 0%float) (JNum 40%float)
                                       (JNum 2%float) (JNum 40%float))
             ∧ directions townsOnALine n (JNum 0%float) (JNum 40%float)
                                         (JNum 2%float) (JNum 40%float)
               = RouteDistance (get (routeCache st') "HOME|JACOBS")
  | Throw _ _ => False
  end.
Proof.
  assert (returned (main townsOnALine (LOCATION_ALIAS None) emptyState) = true
          ∧ get (routeCache (stateOf (main townsOnALine (LOCATION_ALIAS None) emptyState)))
              "HOME|JACOBS" = JNum (2 * 1609.344)%float
          ∧ get (geoCache (stateOf (main townsOnALine (LOCATION_ALIAS None) emptyState)))
              (aliasGet (LOCATION_ALIAS None) "HOME")
            = JCoord (JNum 40%float) (JNum 0%float)
          ∧ get (geoCache (stateOf (main townsOnALine (LOCATION_ALIAS None) emptyState)))
              (aliasGet (LOCATION_ALIAS None) "JACOBS")
            = JCoord (JNum 40%float) (JNum 2%float)) as (Hret & Hm & HcA & HcB)
    by (vm_compute; split_and!; reflexivity).
  destruct (main townsOnALine (LOCATION_ALIAS None) emptyState)
    as [table st'|e st'] eqn:Hrun; [|discriminate Hret].
  simpl in Hm, HcA, HcB.
  assert (NoDup (Object_keys (LOCATION_ALIAS None))) as Hnd by compute_done.
  assert (Forall noBar (Object_keys (LOCATION_ALIAS None))) as Hbar by compute_done.
  assert (("HOME", "JACOBS") ∈ keyPairs (Object_keys (LOCATION_ALIAS None))) as Hin
    by compute_done.
  destruct (C9_table_holds_miles _ _ _ _ _ "HOME" "JACOBS" Hnd Hbar Hrun Hin)
    as (H1 & H2 & _ & _ & [[Ht _]|(_ & n & Hreq & Hans)]);
    [discriminate Ht|].
  change ("HOME" ++ "|" ++ "JACOBS") with "HOME|JACOBS" in H1, H2, Hans.
  change ("JACOBS" ++ "|" ++ "HOME") with "JACOBS|HOME" in H2.
  rewrite Hm in H1, H2. rewrite HcA, HcB in Hreq, Hans.
  split_and!; [exact H1|exact H2|].
  exists n. split; [exact Hreq|exact Hans].
Defined.

(** C9, as stated, fails: the run asks the routing service for the route
    between the coordinates of HOME and of JACOBS, the answer is 3218.688
    meters, the route cache holds that, and the table holds 2 under both
    keys, which is the distance in miles. *)
Lemma C9_counterexample :
  match main townsOnALine (LOCATION_ALIAS None) emptyState with
  | Ret table st' =>
      requests st' !! 5%nat
      = Some (DirectionsRequest (JNum 0%float) (JNum 40%float)
                                (JNum 2%float) (JNum 40%float))
      ∧ directions townsOnALine 5 (JNum 0%float) (JNum 40%float)
                                  (JNum 2%float) (JNum 40%float)
        = RouteDistance (JNum 3218.688%float)
      ∧ get (routeCache st') "HOME|JACOBS" = JNum 3218.688%float
      ∧ table !! "HOME|JACOBS" = Some 2%float
      ∧ table !! "JACOBS|HOME" = Some 2%float
      ∧ table !! "HOME|JACOBS" ≠ Some 3218.688%float
  | Throw _ _ => False
  end.
Proof.
  vm_compute. split_and!; [reflexivity..|].
  intros H. apply (f_equal (λ o, match o with
                                 | Some x => (x =? 2)%float
                                 | None => false
                                 end)) in H.
  vm_compute in H. discriminate H.
Qed.

(** Two runs from the same warm caches agree, whatever the services
    answer, and issue no request. *)
Lemma warm_script net net' alias files :
  warm alias {| geoCache := loadCache (geoCacheFile files);
                routeCache := loadCache (routeCacheFile files);
                requests := [] |} →
  script net alias files = script net' alias files
  ∧ issued (script net alias files) = []
  ∧ thrown (script net alias files) = None.
Proof.
  intros Hwarm. unfold script. rewrite !warm_main by done. done.
Qed.

(** C1, on a cache that covers every key with a falsy value: the two
    identifiers share one address, the first run is told a distance of 0
    meters and saves it; both cache files then cover every address and
    pair key, and the next run issues a routing request all the same.
    Told one mile this time, it writes a table that differs from the
    table of the first run. *)
Theorem C1_rerun_with_zero_cached :
  let prior := script zeroMeters sameAddress noFiles in
  let files := filesAfter prior in
  let again := script zeroMeters sameAddress files in
  let rerun := script oneMile sameAddress files in
  thrown prior = None
  ∧ covers sameAddress files
  ∧ routeCacheFile files = Some {[ "HOME|OFFICE" := JNum 0%float ]}
  ∧ issued again = [DirectionsRequest (JNum (-89.65)%float) (JNum 39.78%float)
                                      (JNum (-89.65)%float) (JNum 39.78%float)]
  ∧ issued rerun = issued again
  ∧ thrown rerun = None
  ∧ mileageTableFile (filesAfter rerun) ≠ mileageTableFile files.
Proof.
  intros prior files again rerun.
  split_and!; try (vm_compute; reflexivity).
  - vm_compute. split; repeat constructor; eauto.
  - intros H.
    apply (f_equal (λ o, match o ≫= (.!! "HOME|OFFICE") with
                         | Some x => (x =? 1)%float
                         | None => false
                         end)) in H.
    vm_compute in H. discriminate H.
Qed.

(** C10: a cache entry counts only when its value is truthy.  When the
    value under the key is falsy (or the key is absent) [geocode] sends a
    request to the geocoding service, and on a match stores and returns
    the new coordinate instead of the cached value; [getMeters], called
    as the script does with coordinates that [geocode] returned (they are
    always truthy), sends a request to the routing service, and on a
    route stores and returns its distance.  When the value is truthy both
    return it and send nothing. *)
Theorem C10_falsy_entry_is_a_miss (net : Network) (st : State)
    (address : string) (coordA coordB : JsVal) (key : string) :
  (truthy (get (geoCache st) address) = false →
     requests (stateOf (geocode net address st))
     = (requests st ++ [GeocodeRequest address])%list
     ∧ ∀ lon lat, geocoding net (length (requests st)) address = GeoCenter lon lat →
         geocode net address st
         = Ret (JCoord lat lon)
             {| geoCache := <[address := JCoord lat lon]> (geoCache st);
                routeCache := routeCache st;
                requests := (requests st ++ [GeocodeRequest address])%list |})
  ∧ (truthy (get (routeCache st) key) = false →
     truthy coordA = true → truthy coordB = true →
     ∃ lonA latA lonB latB,
       requests (stateOf (getMeters net coordA coordB key st))
       = (requests st ++ [DirectionsRequest lonA latA lonB latB])%list
       ∧ ∀ meters,
           directions net (length (requests st)) lonA latA lonB latB
           = RouteDistance meters →
           getMeters net coordA coordB key st
           = Ret meters
               {| geoCache := geoCache st;
                  routeCache := <[key := meters]> (routeCache st);
                  requests := (requests st ++ [DirectionsRequest lonA latA lonB latB])%list |})
  ∧ (truthy (get (geoCache st) address) = true →
     geocode net address st = Ret (get (geoCache st) address) st)
  ∧ (truthy (get (routeCache st) key) = true →
     getMeters net coordA coordB key st = Ret (get (routeCache st) key) st)
  ∧ (∀ v st', geocode net address st = Ret v st' → truthy v = true).
Proof.
  split_and!.
  - intros Ht. unfold geocode, bind, readGeoCache. rewrite Ht.
    unfold fetchGeocoding. split.
    + destruct (geocoding _ _ _); reflexivity.
    + intros lon lat ->. unfold writeGeoCache. simpl. by rewrite get_insert_eq.
  - intros Ht HA HB. unfold getMeters, bind, readRouteCache. rewrite Ht.
    destruct coordA; try discriminate HA; destruct coordB; try discriminate HB;
      simpl; unfold fetchDirections;
      (do 4 eexists; split;
       [destruct (directions _ _ _ _ _ _); reflexivity
       |intros meters ->; reflexivity]).
  - apply geocode_hit.
  - apply getMeters_hit.
  - intros v st' H. by apply geocode_Ret in H as [_ ?].
Qed.

(** C10, witness: with 0 meters cached for the pair, [getMeters] asks the
    routing service again and returns its answer. *)
Lemma C10_falsy_entry_is_a_miss_witness :
  truthy (get (routeCache zeroCached) "HOME|OFFICE") = false
  ∧ ∃ lonA latA lonB latB,
      getMeters oneMile (JCoord (JNum 39.78%float) (JNum (-89.65)%float))
        (JCoord (JNum 39.78%float) (JNum (-89.65)%float)) "HOME|OFFICE" zeroCached
      = Ret (JNum 1609.344%float)
          {| geoCache := ∅;
             routeCache := <["HOME|OFFICE" := JNum 1609.344%float]> (routeCache zeroCached);
             requests := [DirectionsRequest lonA latA lonB latB] |}.
Proof.
  split; [reflexivity|].
  destruct (C10_falsy_entry_is_a_miss oneMile zeroCached ""
              (JCoord (JNum 39.78%float) (JNum (-89.65)%float))
              (JCoord (JNum 39.78%float) (JNum (-89.65)%float)) "HOME|OFFICE")
    as (_ & Hmiss & _).
  destruct (Hmiss eq_refl eq_refl eq_refl) as (lonA & latA & lonB & latB & _ & Hret).
  exists lonA, latA, lonB, latB. apply Hret. reflexivity.
Defined.

(** C6, witness: the four identifiers of the repository. *)
Lemma C6_pair_enumeration_witness :
  pairIndices 4 = [(0, 1); (0, 2); (0, 3); (1, 2); (1, 3); (2, 3)]%nat
  ∧ NoDup (keyPairs (Object_keys (LOCATION_ALIAS None)))
  ∧ ("HOME", "HOME") ∉ keyPairs (Object_keys (LOCATION_ALIAS None)).
Proof.
  split; [reflexivity|].
  destruct (C6_pair_enumeration oneMile (Object_keys (LOCATION_ALIAS None)) ∅ ∅ emptyState)
    as (_ & _ & _ & _ & _ & Hkeys).
  destruct (Hkeys ltac:(compute_done)) as (Hnd & Hirr & _).
  split; [exact Hnd|apply Hirr].
Defined.

End BatchFacts.

(* ===================================================================== *)
(** * Properties of the interactive tool *)
(* ===================================================================== *)

Module InteractiveFacts.
Import Js Interactive InteractiveExamples.

(** The geocoded list carries the addresses it was asked for. *)
Lemma geocodeAll_Ok net first locations geocoded :
  geocodeAll net first locations = Ok geocoded →
  address <$> geocoded = locations.
Proof.
  revert first geocoded.
  induction locations as [|loc rest IH]; intros first geocoded; simpl.
  - by intros [= <-].
  - destruct (geocoding net first loc); simpl; try done.
    destruct (geocodeAll net (S first) rest) as [gs|] eqn:Hrest; [|done].
    intros [= <-]. simpl. f_equal. by eapply IH.
Qed.

Lemma addressAt_lookup geocoded i :
  (i < length geocoded)%nat →
  addressAt geocoded i = Ok ((address <$> geocoded) !!! i).
Proof.
  intros Hi. unfold addressAt.
  destruct (lookup_lt_is_Some_2 geocoded i Hi) as [g Hg]. rewrite Hg.
  f_equal. symmetry. apply list_lookup_total_correct.
  by rewrite list_lookup_fmap, Hg.
Qed.

(** The fallback loop, while it stays within the geocoded list, throws
    nothing and appends one row per iteration. *)
Lemma fallbackRows_spec geocoded totalMeters count i rows :
  (count = 0 ∨ i + count < length geocoded)%nat →
  fallbackRows geocoded totalMeters count i rows
  = ((rows ++ (fallbackRow (address <$> geocoded) totalMeters <$> seq i count))%list, None).
Proof.
  revert i rows. induction count as [|count IH]; intros i rows Hrange; simpl.
  - by rewrite app_nil_r.
  - unfold legRow. rewrite !addressAt_lookup by lia.
    rewrite IH by lia. by rewrite <- app_assoc.
Qed.

(** The run of [calculateMileage] when the input is accepted, every
    location is geocoded and a route comes back. *)
Lemma calculateMileage_route token net inputs ui geocoded route :
  tokenSet token →
  (2 ≤ length (enteredLocations (locationsValue inputs)))%nat →
  geocodeAll net 0 (routeLocations inputs) = Ok geocoded →
  directions net (length (routeLocations inputs))
    ((λ c, (lon c, lat c)) <$> geocoded) = RouteFound route →
  let result := calculateMileage token net inputs ui in
  legsRows result.1 = (perLegBreakdown geocoded route).1
  ∧ result.2 = ((GeocodeRequest <$> routeLocations inputs)
                ++ [DirectionsRequest ((λ c, (lon c, lat c)) <$> geocoded)])%list
  ∧ ((perLegBreakdown geocoded route).2 = None →
     totalMilesText result.1
     = TotalDistance (formatMiles (metersToMiles (distance route)))
     ∧ statusText result.1 = Literal "Done."
     ∧ statusError result.1 = false
     ∧ resultsHidden result.1 = false
     ∧ calculateDisabled result.1 = false).
Proof.
  intros [Htok1 Htok2] Hlen Hgeo Hroute. unfold calculateMileage.
  rewrite bool_decide_false by lia.
  rewrite (bool_decide_false _ Htok1), (bool_decide_false _ Htok2).
  unfold routeLocations in Hgeo, Hroute |- *. cbv zeta. simpl orb. cbv iota.
  rewrite Hgeo. rewrite length_fmap, Hroute. simpl getRoute. cbv iota.
  destruct (perLegBreakdown geocoded route) as [rows [message|]]; simpl.
  - split_and!; [done|done|]. intros [=].
  - done.
Qed.

(** C7: when the text yields fewer than two non-empty lines the tool
    shows the error "Enter at least two locations." and returns with no
    request issued; the results stay hidden and empty. *)
Theorem C7_fewer_than_two_locations (token : string) (net : Network)
    (inputs : Inputs) (ui : UI) :
  (length (enteredLocations (locationsValue inputs)) < 2)%nat →
  let result := calculateMileage token net inputs ui in
  result.2 = []
  ∧ statusText result.1 = Literal "Enter at least two locations."
  ∧ statusError result.1 = true
  ∧ resultsHidden result.1 = true
  ∧ legsRows result.1 = []
  ∧ calculateDisabled result.1 = calculateDisabled ui.
Proof.
  intros Hlen. unfold calculateMileage. by rewrite bool_decide_true.
Qed.

(** C7, witness: one address followed by blank lines. *)
Lemma C7_fewer_than_two_locations_witness :
  length (enteredLocations (locationsValue oneStop)) = 1%nat
  ∧ (calculateMileage TOKEN twoLegs3000 oneStop blankPage).2 = []
  ∧ statusError (calculateMileage TOKEN twoLegs3000 oneStop blankPage).1 = true.
Proof.
  split; [reflexivity|].
  destruct (C7_fewer_than_two_locations TOKEN twoLegs3000 oneStop blankPage)
    as (H1 & _ & H2 & _); [vm_compute; lia|].
  split; [exact H1|exact H2].
Defined.

(** C4: when the route comes back with no legs (the list is empty or
    missing) and total distance D, the table has exactly K - 1 rows for
    the K geocoded coordinates (K is at least 2), numbered from 1, row i
    going from location i to location i + 1, and every row shows the
    whole of D in miles, [formatMiles (metersToMiles D)]; for K = 3 and
    D = 5000 that is two rows showing 3.11. *)
Theorem C4_fallback_rows (token : string) (net : Network) (inputs : Inputs)
    (ui : UI) (geocoded : list Geocoded) (route : Route) :
  tokenSet token →
  (2 ≤ length (enteredLocations (locationsValue inputs)))%nat →
  geocodeAll net 0 (routeLocations inputs) = Ok geocoded →
  directions net (length (routeLocations inputs))
    ((λ c, (lon c, lat c)) <$> geocoded) = RouteFound route →
  legs route = None ∨ legs route = Some [] →
  let result := calculateMileage token net inputs ui in
  let K := length geocoded in
  let D := distance route in
  (2 ≤ K)%nat
  ∧ K = length (routeLocations inputs)
  ∧ legsRows result.1 = fallbackRow (routeLocations inputs) D <$> seq 0 (K - 1)
  ∧ length (legsRows result.1) = (K - 1)%nat
  ∧ Forall (λ row, rowMiles row = toFixed2 (ToNumber D / 1609.344)%float)
           (legsRows result.1)
  ∧ (K = 3%nat → D = JNum 5000%float →
     length (legsRows result.1) = 2%nat
     ∧ Forall (λ row, fixedText (rowMiles row) = Some "3.11") (legsRows result.1)).
Proof.
  intros Htok Hlen Hgeo Hroute Hlegs result K D.
  destruct (calculateMileage_route token net inputs ui _ _ Htok Hlen Hgeo Hroute)
    as (Hrows & _). fold result in Hrows.
  pose proof (geocodeAll_Ok _ _ _ _ Hgeo) as Haddr.
  assert (K = length (routeLocations inputs)) as HK
    by (by rewrite <- Haddr, length_fmap).
  assert (2 ≤ K)%nat as HK2.
  { rewrite HK. unfold routeLocations.
    destruct (roundTripChecked inputs); rewrite ?length_app; lia. }
  assert (legsRows result.1 = fallbackRow (routeLocations inputs) D <$> seq 0 (K - 1))
    as Heq.
  { rewrite Hrows. unfold perLegBreakdown.
    assert (match legs route with Some ls => ls | None => [] end = []) as ->
      by (by destruct Hlegs as [-> | ->]).
    rewrite bool_decide_true by done.
    rewrite fallbackRows_spec by (fold K; lia). by rewrite Haddr. }
  assert (Forall (λ row, rowMiles row = toFixed2 (ToNumber D / 1609.344)%float)
            (legsRows result.1)) as Hall.
  { rewrite Heq. apply Forall_fmap, Forall_forall. done. }
  split_and!; [done|done|done| |done|].
  - by rewrite Heq, length_fmap, length_seq.
  - intros HK3 HD. split.
    + rewrite Heq, length_fmap, length_seq. lia.
    + eapply Forall_impl; [exact Hall|]. intros row ->. by rewrite HD.
Qed.

(** C4, witness: three stops, 5000 m and an empty list of legs. *)
Lemma C4_fallback_rows_witness :
  length (routeLocations threeStops) = 3%nat
  ∧ length (legsRows (calculateMileage TOKEN noLegs5000 threeStops blankPage).1) = 2%nat
  ∧ Forall (λ row, fixedText (rowMiles row) = Some "3.11")
           (legsRows (calculateMileage TOKEN noLegs5000 threeStops blankPage).1).
Proof.
  split; [reflexivity|].
  destruct (geocodeAll noLegs5000 0 (routeLocations threeStops)) as [geocoded|e] eqn:Hgeo;
    [|vm_compute in Hgeo; discriminate Hgeo].
  assert (length geocoded = 3%nat) as HK.
  { vm_compute in Hgeo. injection Hgeo as <-. reflexivity. }
  assert (tokenSet TOKEN) as Htok by (split; discriminate).
  assert (2 ≤ length (enteredLocations (locationsValue threeStops)))%nat as Hlen
    by (vm_compute; lia).
  destruct (C4_fallback_rows TOKEN noLegs5000 threeStops blankPage geocoded
              {| distance := JNum 5000%float; legs := Some [] |}
              Htok Hlen Hgeo eq_refl (or_intror eq_refl))
    as (_ & _ & _ & _ & _ & Hthree).
  exact (Hthree HK eq_refl).
Defined.

(** C5, at three stops: the routing service returns no legs and a total
    of 5000 m; the tool adds two rows, from the first stop to the second
    and from the second to the third, and each shows the whole 3.11 miles
    that the total line shows as well. *)
Theorem C5_fallback_three_stops :
  let result := calculateMileage TOKEN noLegs5000 threeStops blankPage in
  length (legsRows result.1) = 2%nat
  ∧ rowIndex <$> legsRows result.1 = [1; 2]%nat
  ∧ rowFrom <$> legsRows result.1 = [str "Springfield, IL"; str "Chicago, IL"]
  ∧ rowTo <$> legsRows result.1 = [str "Chicago, IL"; str "Peoria, IL"]
  ∧ fixedText ∘ rowMiles <$> legsRows result.1 = [Some "3.11"; Some "3.11"]
  ∧ totalMilesText result.1 = TotalDistance (FixedDec false 311)
  ∧ fixedText (FixedDec false 311) = Some "3.11".
Proof. vm_compute. done. Qed.

(** C8: with legs of 1000 m and 2000 m and a total of 3000 m the table
    has two rows, in the order of the legs, showing 0.62 and 1.24, and
    the total line shows 1.86: the quotients by 1609.344 to two
    decimals. *)
Theorem C8_two_legs_miles (token : string) (net : Network) (inputs : Inputs)
    (ui : UI) (geocoded : list Geocoded) :
  tokenSet token →
  (2 ≤ length (enteredLocations (locationsValue inputs)))%nat →
  geocodeAll net 0 (routeLocations inputs) = Ok geocoded →
  (3 ≤ length geocoded)%nat →
  directions net (length (routeLocations inputs))
    ((λ c, (lon c, lat c)) <$> geocoded)
  = RouteFound {| distance := JNum 3000%float;
                  legs := Some [ {| legDistance := JNum 1000%float |};
                                 {| legDistance := JNum 2000%float |} ] |} →
  let result := calculateMileage token net inputs ui in
  fixedText ∘ rowMiles <$> legsRows result.1 = [Some "0.62"; Some "1.24"]
  ∧ rowIndex <$> legsRows result.1 = [1; 2]%nat
  ∧ rowFrom <$> legsRows result.1 = take 2 (routeLocations inputs)
  ∧ rowTo <$> legsRows result.1 = take 2 (drop 1 (routeLocations inputs))
  ∧ (∃ total, totalMilesText result.1 = TotalDistance total
              ∧ fixedText total = Some "1.86")
  ∧ statusText result.1 = Literal "Done.".
Proof.
  intros Htok Hlen Hgeo HK Hroute result.
  destruct (calculateMileage_route token net inputs ui _ _ Htok Hlen Hgeo Hroute)
    as (Hrows & _ & Hdone). fold result in Hrows, Hdone.
  rewrite <- (geocodeAll_Ok _ _ _ _ Hgeo).
  destruct geocoded as [|g0 [|g1 [|g2 rest]]]; simpl in HK; try lia.
  destruct Hdone as (Htotal & Hstatus & _); [reflexivity|].
  rewrite Hrows. split_and!.
  - vm_compute. reflexivity.
  - reflexivity.
  - reflexivity.
  - reflexivity.
  - eexists. split; [exact Htotal|]. vm_compute. reflexivity.
  - exact Hstatus.
Qed.

(** C8, witness: three stops. *)
Lemma C8_two_legs_miles_witness :
  fixedText ∘ rowMiles
    <$> legsRows (calculateMileage TOKEN twoLegs3000 threeStops blankPage).1
  = [Some "0.62"; Some "1.24"]
  ∧ ∃ total,
      totalMilesText (calculateMileage TOKEN twoLegs3000 threeStops blankPage).1
      = TotalDistance total
      ∧ fixedText total = Some "1.86".
Proof.
  destruct (geocodeAll twoLegs3000 0 (routeLocations threeStops)) as [geocoded|e] eqn:Hgeo;
    [|vm_compute in Hgeo; discriminate Hgeo].
  assert (3 ≤ length geocoded)%nat as HK.
  { vm_compute in Hgeo. injection Hgeo as <-. vm_compute. lia. }
  assert (tokenSet TOKEN) as Htok by (split; discriminate).
  assert (2 ≤ length (enteredLocations (locationsValue threeStops)))%nat as Hlen
    by (vm_compute; lia).
  destruct (C8_two_legs_miles TOKEN twoLegs3000 threeStops blankPage geocoded
              Htok Hlen Hgeo HK eq_refl)
    as (Hrows & _ & _ & _ & Htotal & _).
  split; [exact Hrows|exact Htotal].
Defined.

End InteractiveFacts.

(* ===================================================================== *)
(** * Further properties of the batch script *)
(* ===================================================================== *)

Module BatchExtras.
Import Js Batch Examples BatchFacts.

(** ** One lookup *)

Lemma stateOf_bind {A B} (m : M A) (k : A → M B) st :
  stateOf (bind m k st)
  = match m st with
    | Ret a st1 => stateOf (k a st1)
    | Throw _ st1 => st1
    end.
Proof. unfold bind. by destruct (m st). Qed.

Lemma field_cases name coord st :
  (∃ v, field name coord st = Ret v st)
  ∨ (∃ e, field name coord st = Throw e st ∧ truthy coord = false).
Proof. destruct coord; simpl; unfold ret, throw; eauto. Qed.

(** The three ways [geocode] ends: a hit, a stored match, a failure after
    the request. *)
Lemma geocode_cases net address st :
  (truthy (get (geoCache st) address) = true
   ∧ geocode net address st = Ret (get (geoCache st) address) st)
  ∨ (truthy (get (geoCache st) address) = false
     ∧ ((∃ lon lat,
           geocode net address st
           = Ret (JCoord lat lon)
               {| geoCache := <[address := JCoord lat lon]> (geoCache st);
                  routeCache := routeCache st;
                  requests := (requests st ++ [GeocodeRequest address])%list |})
        ∨ (∃ e,
             geocode net address st
             = Throw e
                 {| geoCache := geoCache st;
                    routeCache := routeCache st;
                    requests := (requests st ++ [GeocodeRequest address])%list |}))).
Proof.
  destruct (truthy (get (geoCache st) address)) eqn:Ht.
  - left. split; [done|]. by apply geocode_hit.
  - right. split; [done|]. unfold geocode, bind, readGeoCache. rewrite Ht.
    unfold fetchGeocoding. destruct (geocoding _ _ _); unfold throw; eauto.
    left. exists lon, lat. unfold writeGeoCache. simpl. by rewrite get_insert_eq.
Qed.

(** The ways [getMeters] ends: a hit, a failed read of a coordinate that
    is [undefined] or [null], a stored distance, a failure after the
    request. *)
Lemma getMeters_cases net coordA coordB key st :
  (truthy (get (routeCache st) key) = true
   ∧ getMeters net coordA coordB key st = Ret (get (routeCache st) key) st)
  ∨ (truthy (get (routeCache st) key) = false
     ∧ ((∃ e, getMeters net coordA coordB key st = Throw e st
              ∧ (truthy coordA = false ∨ truthy coordB = false))
        ∨ (∃ lonA latA lonB latB meters,
             getMeters net coordA coordB key st
             = Ret meters
                 {| geoCache := geoCache st;
                    routeCache := <[key := meters]> (routeCache st);
                    requests := (requests st
                                 ++ [DirectionsRequest lonA latA lonB latB])%list |})
        ∨ (∃ lonA latA lonB latB e,
             getMeters net coordA coordB key st
             = Throw e
                 {| geoCache := geoCache st;
                    routeCache := routeCache st;
                    requests := (requests st
                                 ++ [DirectionsRequest lonA latA lonB latB])%list |}))).
Proof.
  destruct (truthy (get (routeCache st) key)) eqn:Ht.
  - left. split; [done|]. by apply getMeters_hit.
  - right. split; [done|]. unfold getMeters, bind, readRouteCache. rewrite Ht.
    destruct (field_cases "lon" coordA st) as [[lonA ->]|(e & -> & ?)]; [|eauto 10].
    destruct (field_cases "lat" coordA st) as [[latA ->]|(e & -> & ?)]; [|eauto 10].
    destruct (field_cases "lon" coordB st) as [[lonB ->]|(e & -> & ?)]; [|eauto 10].
    destruct (field_cases "lat" coordB st) as [[latB ->]|(e & -> & ?)]; [|eauto 10].
    unfold fetchDirections. right.
    destruct (directions _ _ _ _ _ _);
      unfold throw, writeRouteCache, ret; simpl; eauto 10.
Qed.

(** ** Loops and the states they end in *)

Lemma stateOf_bind_ret {A B} (m : M A) (f : A → B) st :
  stateOf (bind m (λ a, ret (f a)) st) = stateOf (m st).
Proof. unfold bind, ret. by destruct (m st). Qed.

(** A relation between states that is reflexive and transitive and that
    every run of the body keeps is kept by the loop, however it ends. *)
Lemma forOf_keeps {X T} (R : State → State → Prop) (xs : list X)
    (body : X → T → M T) acc st :
  (∀ s, R s s) → (∀ a b c, R a b → R b c → R a c) →
  (∀ x acc s, R s (stateOf (body x acc s))) →
  R st (stateOf (forOf xs body acc st)).
Proof.
  intros Hrefl Htrans Hbody. revert acc st.
  induction xs as [|x xs IH]; intros acc st; simpl; [apply Hrefl|].
  rewrite stateOf_bind. pose proof (Hbody x acc st) as Hstep.
  destruct (body x acc st) as [acc1 st1|e st1]; simpl in Hstep; [|done].
  eapply Htrans; [exact Hstep|apply IH].
Qed.

Lemma forPairs_keeps {T} (R : State → State → Prop) (l : list (nat * nat))
    (body : nat → nat → T → M T) acc st :
  (∀ s, R s s) → (∀ a b c, R a b → R b c → R a c) →
  (∀ i j acc s, R s (stateOf (body i j acc s))) →
  R st (stateOf (forPairs l body acc st)).
Proof.
  intros Hrefl Htrans Hbody. revert acc st.
  induction l as [|[i j] l IH]; intros acc st; simpl; [apply Hrefl|].
  rewrite stateOf_bind. pose proof (Hbody i j acc st) as Hstep.
  destruct (body i j acc st) as [acc1 st1|e st1]; simpl in Hstep; [|done].
  eapply Htrans; [exact Hstep|apply IH].
Qed.

Lemma stateOf_main net alias st :
  stateOf (main net alias st)
  = match forOf (Object_keys alias) (geocodeStep net alias) ∅ st with
    | Ret coords st1 =>
        stateOf (forPairs (pairIndices (length (Object_keys alias)))
                   (pairStep net (Object_keys alias) coords) ∅ st1)
    | Throw _ st1 => st1
    end.
Proof.
  unfold main. rewrite stateOf_bind.
  destruct (forOf _ _ _ _) as [coords st1|]; [|done].
  rewrite (stateOf_bind_ret _ (λ t, t)). unfold pairLoop.
  f_equal. apply nested_loops_forPairs.
Qed.

Lemma issued_script net alias files :
  issued (script net alias files) = requests (stateOf (main net alias (loaded files))).
Proof. unfold script, loaded. by destruct (main _ _ _). Qed.

(** ** Hits are kept *)

Lemma keepsHits_refl st : keepsHits st st.
Proof. by split. Qed.

Lemma keepsHits_trans a b c : keepsHits a b → keepsHits b c → keepsHits a c.
Proof.
  intros [Hg1 Hr1] [Hg2 Hr2]. split; intros k Hk.
  - rewrite <- (Hg1 k Hk). apply Hg2. by rewrite (get_lookup_eq _ _ _ (Hg1 k Hk)).
  - rewrite <- (Hr1 k Hk). apply Hr2. by rewrite (get_lookup_eq _ _ _ (Hr1 k Hk)).
Qed.

Lemma geocode_keepsHits net address st :
  keepsHits st (stateOf (geocode net address st)).
Proof.
  destruct (geocode_cases net address st)
    as [[_ ->]|[Hf [(lon & lat & ->)|(e & ->)]]]; simpl;
    [apply keepsHits_refl| |by split].
  split; simpl; [|done]. intros k Hk. apply lookup_insert_ne. congruence.
Qed.

Lemma getMeters_keepsHits net coordA coordB key st :
  keepsHits st (stateOf (getMeters net coordA coordB key st)).
Proof.
  destruct (getMeters_cases net coordA coordB key st)
    as [[_ ->]|[Hf [(e & -> & _)|[(?&?&?&?& m & ->)|(?&?&?&?& e & ->)]]]]; simpl;
    [apply keepsHits_refl|apply keepsHits_refl| |by split].
  split; simpl; [done|]. intros k Hk. apply lookup_insert_ne. congruence.
Qed.

Lemma main_keepsHits net alias st : keepsHits st (stateOf (main net alias st)).
Proof.
  rewrite stateOf_main.
  pose proof (forOf_keeps keepsHits (Object_keys alias) (geocodeStep net alias) ∅ st
                keepsHits_refl keepsHits_trans) as Hgeo.
  destruct (forOf _ _ _ _) as [coords st1|e st1]; simpl in Hgeo.
  - eapply keepsHits_trans.
    + apply Hgeo. intros x acc s. unfold geocodeStep.
      rewrite stateOf_bind_ret. apply geocode_keepsHits.
    + apply forPairs_keeps; [apply keepsHits_refl|apply keepsHits_trans|].
      intros i j acc s. unfold pairStep.
      rewrite (stateOf_bind_ret _ (λ meters, _)). apply getMeters_keepsHits.
  - apply Hgeo. intros x acc s. unfold geocodeStep.
    rewrite stateOf_bind_ret. apply geocode_keepsHits.
Qed.

(** X5: an entry that counts as a hit is never overwritten: whatever the
    services answer and however the run ends, each cache still holds,
    under every key whose value was truthy at the start, the value it
    held. *)
Theorem X5_hits_are_never_overwritten (net : Network) (alias : Alias)
    (st : State) (k : string) :
  (truthy (get (geoCache st) k) = true →
   geoCache (stateOf (main net alias st)) !! k = geoCache st !! k)
  ∧ (truthy (get (routeCache st) k) = true →
     routeCache (stateOf (main net alias st)) !! k = routeCache st !! k).
Proof. destruct (main_keepsHits net alias st) as [Hg Hr]. split; auto. Qed.

(** ** The requests of a run *)

Lemma geocodeStep_eq net alias key coords st :
  geocodeStep net alias key coords st
  = match geocode net (aliasGet alias key) st with
    | Ret v st' => Ret (<[key := v]> coords) st'
    | Throw e st' => Throw e st'
    end.
Proof. done. Qed.

Lemma pairStep_eq net keys coords i j table st :
  pairStep net keys coords i j table st
  = match getMeters net (get coords (at_ keys i)) (get coords (at_ keys j))
            (at_ keys i ++ "|" ++ at_ keys j) st with
    | Ret meters st' =>
        Ret (<[at_ keys j ++ "|" ++ at_ keys i := milesOf meters]>
               (<[at_ keys i ++ "|" ++ at_ keys j := milesOf meters]> table)) st'
    | Throw e st' => Throw e st'
    end.
Proof. done. Qed.

(** The geocoding loop asks for addresses of the mapping, in its order,
    each at most once, and only for addresses that were not hits. *)
Lemma geocodeLoop_requests net alias keys coords0 st :
  ∃ asked,
    requests (stateOf (forOf keys (geocodeStep net alias) coords0 st))
    = (requests st ++ (GeocodeRequest <$> asked))%list
    ∧ asked `sublist_of` (aliasGet alias <$> keys)
    ∧ NoDup asked
    ∧ (∀ a, a ∈ asked → truthy (get (geoCache st) a) = false).
Proof.
  revert coords0 st. induction keys as [|key keys IH]; intros coords0 st.
  - exists []. simpl. rewrite app_nil_r. split_and!; [done|done|constructor|].
    intros a Ha. by apply elem_of_nil in Ha.
  - simpl forOf. rewrite stateOf_bind, geocodeStep_eq.
    destruct (geocode_cases net (aliasGet alias key) st)
      as [[_ ->]|[Hf [(lon & lat & ->)|(e & ->)]]].
    + destruct (IH (<[key := get (geoCache st) (aliasGet alias key)]> coords0) st)
        as (asked & Hreq & Hsub & Hnd & Hfalsy).
      exists asked. split_and!; [done| |done|done].
      rewrite fmap_cons. by apply sublist_cons.
    + match goal with
      | |- context [forOf keys _ ?c ?s] => destruct (IH c s) as (asked & Hreq & Hsub & Hnd & Hfalsy)
      end.
      simpl in Hreq, Hfalsy.
      exists (aliasGet alias key :: asked). split_and!.
      * rewrite Hreq, fmap_cons, <- app_assoc. done.
      * rewrite fmap_cons. by apply sublist_skip.
      * apply NoDup_cons. split; [|done]. intros Hin.
        apply Hfalsy in Hin. by rewrite get_insert_eq in Hin.
      * intros a [->|Hin]%elem_of_cons; [done|].
        pose proof (Hfalsy a Hin) as Ha.
        destruct (decide (a = aliasGet alias key)) as [->|Hne].
        -- by rewrite get_insert_eq in Ha.
        -- rewrite <- Ha. symmetry. f_equal.
           apply get_lookup_eq. by apply lookup_insert_ne.
    + exists [aliasGet alias key]. simpl. split_and!.
      * done.
      * apply sublist_skip, sublist_nil_l.
      * apply NoDup_singleton.
      * intros a ->%list_elem_of_singleton. done.
Qed.

(** The pair loop sends routing requests only, at most one per pair. *)
Lemma pairLoop_requests net keys coords l table st :
  ∃ sent,
    requests (stateOf (forPairs l (pairStep net keys coords) table st))
    = (requests st ++ sent)%list
    ∧ Forall isDirectionsRequest sent
    ∧ (length sent ≤ length l)%nat.
Proof.
  revert table st. induction l as [|[i j] l IH]; intros table st.
  - exists []. simpl. by rewrite app_nil_r.
  - simpl forPairs. rewrite stateOf_bind, pairStep_eq.
    destruct (getMeters_cases net (get coords (at_ keys i)) (get coords (at_ keys j))
                (at_ keys i ++ "|" ++ at_ keys j) st)
      as [[_ ->]|[Hf [(e & -> & _)|[(?&?&?&?& m & ->)|(?&?&?&?& e & ->)]]]].
    + match goal with
      | |- context [forPairs l _ ?t ?s] => destruct (IH t s) as (sent & Hreq & Hall & Hlen)
      end.
      exists sent. split_and!; [done|done|simpl; lia].
    + exists []. simpl. rewrite app_nil_r. split_and!; [done|constructor|lia].
    + match goal with
      | |- context [forPairs l _ ?t ?s] => destruct (IH t s) as (sent & Hreq & Hall & Hlen)
      end.
      simpl in Hreq. eexists (_ :: sent). split_and!.
      * rewrite Hreq, <- app_assoc. done.
      * constructor; [exact I|done].
      * simpl. lia.
    + eexists [_]. simpl. split_and!; [done|repeat constructor|lia].
Qed.

(** The requests of a whole run, however it ends. *)
Lemma main_requests net alias st :
  ∃ asked sent,
    requests (stateOf (main net alias st))
    = (requests st ++ (GeocodeRequest <$> asked) ++ sent)%list
    ∧ asked `sublist_of` addresses alias
    ∧ NoDup asked
    ∧ (∀ a, a ∈ asked → truthy (get (geoCache st) a) = false)
    ∧ Forall isDirectionsRequest sent
    ∧ (length sent ≤ length (pairIndices (length (Object_keys alias))))%nat.
Proof.
  rewrite stateOf_main.
  destruct (geocodeLoop_requests net alias (Object_keys alias) ∅ st)
    as (asked & Hreq & Hsub & Hnd & Hfalsy).
  destruct (forOf _ _ _ _) as [coords st1|e st1]; simpl in Hreq.
  - destruct (pairLoop_requests net (Object_keys alias) coords
                (pairIndices (length (Object_keys alias))) ∅ st1)
      as (sent & Hreq' & Hall & Hlen).
    exists asked, sent. rewrite Hreq', Hreq, <- app_assoc. done.
  - exists asked, []. rewrite Hreq, app_nil_r.
    split_and!; [done|done|done|done|constructor|simpl; lia].
Qed.

(** X3: in every run, completed or not, the geocoding requests come
    first and the routing requests after them; the addresses asked for
    are addresses of the mapping in the order of its keys, so there are
    at most N geocoding requests, and there are at most N(N-1)/2 routing
    requests. *)
Theorem X3_requests_of_a_run (net : Network) (alias : Alias) (files : Files) :
  let n := length (Object_keys alias) in
  ∃ asked sent,
    issued (script net alias files) = ((GeocodeRequest <$> asked) ++ sent)%list
    ∧ asked `sublist_of` addresses alias
    ∧ Forall isDirectionsRequest sent
    ∧ (length asked ≤ n)%nat
    ∧ (2 * length sent ≤ n * (n - 1))%nat.
Proof.
  intros n. rewrite issued_script.
  destruct (main_requests net alias (loaded files))
    as (asked & sent & Hreq & Hsub & _ & _ & Hall & Hlen).
  exists asked, sent. split_and!; [done|done|done| |].
  - apply sublist_length in Hsub. unfold addresses in Hsub.
    by rewrite length_fmap in Hsub.
  - pose proof (length_pairIndices n). fold n in Hlen. lia.
Qed.

(** X4: no address is geocoded twice in a run, and none that the loaded
    cache holds a truthy value for: two identifiers with one address cost
    one request. *)
Theorem X4_each_address_geocoded_once (net : Network) (alias : Alias)
    (files : Files) (i j : nat) (address : string) :
  issued (script net alias files) !! i = Some (GeocodeRequest address) →
  issued (script net alias files) !! j = Some (GeocodeRequest address) →
  i = j
  ∧ truthy (get (loadCache (geoCacheFile files)) address) = false
  ∧ address ∈ addresses alias.
Proof.
  rewrite issued_script.
  destruct (main_requests net alias (loaded files))
    as (asked & sent & -> & Hsub & Hnd & Hfalsy & Hall & _). simpl.
  assert (∀ m, ((GeocodeRequest <$> asked) ++ sent)%list !! m = Some (GeocodeRequest address) →
               asked !! m = Some address) as Hpos.
  { intros m Hm. apply lookup_app_Some in Hm as [Hm|[_ Hm]].
    - rewrite list_lookup_fmap in Hm.
      destruct (asked !! m); simpl in Hm; congruence.
    - rewrite Forall_forall in Hall.
      apply list_elem_of_lookup_2, Hall in Hm. done. }
  intros Hi%Hpos Hj%Hpos. split_and!.
  - by eapply NoDup_lookup.
  - apply Hfalsy. by eapply list_elem_of_lookup_2.
  - eapply sublist_subseteq; [exact Hsub|]. by eapply list_elem_of_lookup_2.
Qed.

(** ** Failures *)





(** ** The keys of the table *)

Lemma forPairs_dom net keys coords l table st table' st' (k : string) :
  forPairs l (pairStep net keys coords) table st = Ret table' st' →
  is_Some (table' !! k)
  ↔ is_Some (table !! k) ∨ k ∈ directedKeys (keysAt keys <$> l).
Proof.
  revert table st. induction l as [|[i j] l IH]; intros table st; simpl.
  - unfold ret. intros [= <- <-]. unfold directedKeys. simpl. set_solver.
  - unfold bind. rewrite pairStep_eq.
    destruct (getMeters _ _ _ _ _) as [m st1|]; [|done].
    intros Hrest. apply IH in Hrest. rewrite Hrest. clear Hrest.
    set (fwd := at_ keys i ++ "|" ++ at_ keys j).
    set (rev := at_ keys j ++ "|" ++ at_ keys i).
    pose proof (lookup_insert_is_Some' (<[fwd := milesOf m]> table) rev k (milesOf m)) as H1.
    pose proof (lookup_insert_is_Some' table fwd k (milesOf m)) as H2.
    pose proof (elem_of_cons (rev :: directedKeys (keysAt keys <$> l)) k fwd) as H3.
    pose proof (elem_of_cons (directedKeys (keysAt keys <$> l)) k rev) as H4.
    fold (directedKeys (keysAt keys <$> l)).
    naive_solver.
Qed.

(** X7: the table of a completed run has an entry under A|B and under
    B|A for every pair of identifiers at positions i < j, and under no
    other key, whatever the identifiers are. *)
Theorem X7_table_keys (net : Network) (alias : Alias) (st : State)
    (table : Table) (st' : State) (k : string) :
  main net alias st = Ret table st' →
  is_Some (table !! k) ↔ k ∈ directedKeys (keyPairs (Object_keys alias)).
Proof.
  unfold main, bind. destruct (forOf _ _ _ _) as [coords st1|]; [|done].
  unfold pairLoop. rewrite nested_loops_forPairs.
  destruct (forPairs _ _ _ _) as [t s|] eqn:Hpairs; [|done].
  unfold ret. intros [= <- <-].
  rewrite (forPairs_dom _ _ _ _ _ _ _ _ k Hpairs), lookup_empty.
  unfold keyPairs. split; [intros [[? [=]]|?]; done|by right].
Qed.

(** ** Cache files *)

(** Writing a value that was read from a cache file gives the same
    value back. *)
Lemma toJSON_idem (v w : JsVal) : toJSON v = Some w → toJSON w = Some w.
Proof.
  revert w. induction v as [| |b|x|lat IHlat lon IHlon|name]; intros w; simpl;
    try (intros [= <-]; done); try done.
  - intros [= <-]. destruct (is_nan x || is_infinity x) eqn:Hx; [done|].
    destruct (is_zero x) eqn:Hz; simpl; [done|]. by rewrite Hx, Hz.
  - intros [= <-]. simpl. f_equal. f_equal.
    + destruct (toJSON lat) as [lat'|]; simpl; [|done]. by rewrite (IHlat lat').
    + destruct (toJSON lon) as [lon'|]; simpl; [|done]. by rewrite (IHlon lon').
Qed.

Lemma saveCache_loadCache (obj : gmap string JsVal) :
  saveCache (loadCache (saveCache obj)) = saveCache obj.
Proof.
  unfold saveCache. simpl. f_equal. apply map_eq. intros k.
  rewrite !lookup_omap. destruct (obj !! k) as [v|]; simpl; [|done].
  destruct (toJSON v) as [w|] eqn:Hv; simpl; [|done]. by eapply toJSON_idem.
Qed.

(** X1: a run that finds a truthy value for every address and every
    pair key, in cache files that the script wrote, issues no request,
    does not fail, writes both cache files back as they were, and writes
    the table that the route cache determines; nothing of this depends on
    the services. *)
Theorem X1_warm_run (net : Network) (alias : Alias) (files : Files)
    (geo route : gmap string JsVal) :
  geoCacheFile files = saveCache geo →
  routeCacheFile files = saveCache route →
  warm alias (loaded files) →
  let run := script net alias files in
  issued run = []
  ∧ thrown run = None
  ∧ geoCacheFile (filesAfter run) = geoCacheFile files
  ∧ routeCacheFile (filesAfter run) = routeCacheFile files
  ∧ mileageTableFile (filesAfter run)
    = Some (tableOf (loadCache (routeCacheFile files))
              (keyPairs (Object_keys alias)) ∅).
Proof.
  intros Hgeo Hroute Hwarm run. unfold run, script. fold (loaded files).
  rewrite (warm_main net alias (loaded files) Hwarm). simpl.
  rewrite Hgeo, Hroute, !saveCache_loadCache. done.
Qed.

(** ** A run after a completed run *)

Lemma geocodeLoop_geoCache net alias keys coords0 st coords st' :
  forOf keys (geocodeStep net alias) coords0 st = Ret coords st' →
  (∀ key, key ∈ keys → truthy (get (geoCache st') (aliasGet alias key)) = true)
  ∧ (∀ k, geoCache st' !! k = geoCache st !! k
          ∨ ∃ lat lon, geoCache st' !! k = Some (JCoord lat lon)).
Proof.
  revert coords0 st. induction keys as [|key keys IH]; intros coords0 st; simpl.
  - unfold ret. intros [= <- <-]. split; [|by left].
    intros key Hin. by apply elem_of_nil in Hin.
  - unfold bind. rewrite geocodeStep_eq.
    destruct (geocode_cases net (aliasGet alias key) st)
      as [[Ht ->]|[Hf [(lon & lat & ->)|(e & ->)]]]; [| |done]; intros Hrest.
    + destruct (IH _ _ Hrest) as [Hkeys Hval]. split; [|done].
      intros key' [->|Hin]%elem_of_cons; [|by apply Hkeys].
      pose proof (forOf_keeps keepsHits keys (geocodeStep net alias)
                    (<[key := get (geoCache st) (aliasGet alias key)]> coords0) st
                    keepsHits_refl keepsHits_trans) as [Hkeep _].
      { intros x acc s. rewrite geocodeStep_eq.
        pose proof (geocode_keepsHits net (aliasGet alias x) s) as H.
        by destruct (geocode _ _ _). }
      rewrite Hrest in Hkeep. simpl in Hkeep.
      rewrite <- Ht. f_equal. apply get_lookup_eq. by apply Hkeep.
    + destruct (IH _ _ Hrest) as [Hkeys Hval]. simpl in Hval. split.
      * intros key' [->|Hin]%elem_of_cons; [|by apply Hkeys].
        match type of Hrest with
        | forOf keys _ ?c ?s = _ =>
            pose proof (forOf_keeps keepsHits keys (geocodeStep net alias) c s
                          keepsHits_refl keepsHits_trans) as [Hkeep _]
        end.
        { intros x acc s. rewrite geocodeStep_eq.
          pose proof (geocode_keepsHits net (aliasGet alias x) s) as H.
          by destruct (geocode _ _ _). }
        rewrite Hrest in Hkeep. simpl in Hkeep.
        specialize (Hkeep (aliasGet alias key)).
        rewrite get_insert_eq in Hkeep. specialize (Hkeep eq_refl).
        rewrite lookup_insert_eq in Hkeep. unfold get. by rewrite Hkeep.
      * intros k. destruct (Hval k) as [Heq|?]; [|by right].
        destruct (decide (k = aliasGet alias key)) as [->|Hne].
        -- right. rewrite Heq, lookup_insert_eq. eauto.
        -- left. rewrite Heq. by apply lookup_insert_ne.
Qed.

Lemma pairLoop_geoCache net keys coords l table st :
  geoCache (stateOf (forPairs l (pairStep net keys coords) table st)) = geoCache st.
Proof.
  apply (forPairs_keeps (λ s s', geoCache s' = geoCache s)); [done|congruence|].
  intros i j acc s. rewrite pairStep_eq.
  destruct (getMeters_cases net (get coords (at_ keys i)) (get coords (at_ keys j))
              (at_ keys i ++ "|" ++ at_ keys j) s)
    as [[_ ->]|[Hf [(e & -> & _)|[(?&?&?&?& m & ->)|(?&?&?&?& e & ->)]]]]; done.
Qed.

(** X6: after a completed run, the next run from the files it wrote
    sends no geocoding request, whatever the services answer: every
    address has a coordinate in the saved cache.  The geocoding cache file
    of the first run, if there was one, is one that the script wrote. *)
Theorem X6_rerun_geocodes_nothing (net net' : Network) (alias : Alias)
    (files : Files) :
  writtenBySaveCache (geoCacheFile files) →
  thrown (script net alias files) = None →
  Forall isDirectionsRequest
    (issued (script net' alias (filesAfter (script net alias files)))).
Proof.
  intros Hfile Hdone.
  assert (∃ table st', main net alias (loaded files) = Ret table st') as (table & st' & Hrun).
  { unfold script in Hdone. fold (loaded files) in Hdone.
    destruct (main net alias (loaded files)); [eauto|done]. }
  assert (filesAfter (script net alias files)
          = {| geoCacheFile := saveCache (geoCache st');
               routeCacheFile := saveCache (routeCache st');
               mileageTableFile := Some table |}) as ->.
  { unfold script. fold (loaded files). by rewrite Hrun. }
  assert (∀ key, key ∈ Object_keys alias →
            truthy (get (omap toJSON (geoCache st')) (aliasGet alias key)) = true) as Hwarm.
  { unfold main, bind in Hrun.
    destruct (forOf _ _ _ _) as [coords st1|] eqn:Hgeo; [|done].
    apply geocodeLoop_geoCache in Hgeo as [Hkeys Hval].
    pose proof (pairLoop_geoCache net (Object_keys alias) coords
                  (pairIndices (length (Object_keys alias))) ∅ st1) as Hsame.
    unfold pairLoop in Hrun. rewrite nested_loops_forPairs in Hrun.
    destruct (forPairs _ _ _ _) as [t s|]; [|done]. simpl in Hsame.
    unfold ret in Hrun. injection Hrun as _ <-. rewrite Hsame.
    intros key Hin. specialize (Hkeys key Hin). specialize (Hval (aliasGet alias key)).
    unfold get in Hkeys |- *. rewrite lookup_omap.
    destruct (geoCache st1 !! aliasGet alias key) as [v|] eqn:Hv; simpl; [|done].
    destruct Hval as [Hold|(lat & lon & [= ->])]; [|done].
    destruct Hfile as [Hnone|[obj Hobj]]; simpl in Hold.
    - by rewrite Hnone in Hold.
    - rewrite Hobj in Hold. simpl in Hold. rewrite lookup_omap in Hold.
      destruct (obj !! aliasGet alias key) as [u|]; simpl in Hold; [|done].
      symmetry in Hold. by rewrite (toJSON_idem _ _ Hold). }
  rewrite issued_script.
  match goal with
  | |- context [main net' alias ?s] =>
      destruct (main_requests net' alias s) as (asked & sent & -> & Hsub & _ & Hfalsy & Hall & _)
  end.
  simpl in Hfalsy |- *. destruct asked as [|a asked]; [done|]. exfalso.
  assert (a ∈ addresses alias) as Ha
    by (eapply sublist_subseteq; [exact Hsub|left]).
  apply list_elem_of_fmap in Ha as (key & -> & Hkey).
  specialize (Hfalsy (aliasGet alias key) ltac:(left)).
  rewrite (Hwarm key Hkey) in Hfalsy. done.
Qed.

(** ** Instances *)

(** X1, witness: the complete caches of [sameAddress]; two miles from
    the cache although the service would answer one mile. *)
Lemma X1_warm_run_witness :
  issued (script oneMile sameAddress warmFiles) = []
  ∧ mileageTableFile (filesAfter (script oneMile sameAddress warmFiles))
    = Some (tableOf sameAddressRoute (keyPairs (Object_keys sameAddress)) ∅).
Proof.
  assert (warm sameAddress (loaded warmFiles)) as Hwarm.
  { split.
    - intros key Hin. apply (bool_decide_unpack _).
      revert key Hin. apply Forall_forall. compute_done.
    - intros AB Hin. apply (bool_decide_unpack _).
      revert AB Hin. apply Forall_forall. compute_done. }
  assert (geoCacheFile warmFiles = saveCache sameAddressGeo) as Hgeo
    by (vm_compute; reflexivity).
  assert (routeCacheFile warmFiles = saveCache sameAddressRoute) as Hroute
    by (vm_compute; reflexivity).
  pose proof (X1_warm_run oneMile sameAddress warmFiles sameAddressGeo sameAddressRoute
                Hgeo Hroute Hwarm) as (H1 & _ & _ & _ & H2).
  split; [exact H1|exact H2].
Defined.


(** X4, witness: two identifiers, one address, one geocoding request. *)
Lemma X4_each_address_geocoded_once_witness :
  issued (script oneMile sameAddress noFiles) !! 0%nat
  = Some (GeocodeRequest "123 Fake St, Springfield IL")
  ∧ "123 Fake St, Springfield IL" ∈ addresses sameAddress.
Proof.
  split; [reflexivity|].
  destruct (X4_each_address_geocoded_once oneMile sameAddress noFiles 0 0
              "123 Fake St, Springfield IL" eq_refl eq_refl) as (_ & _ & H).
  exact H.
Defined.

(** X5, witness: two miles cached for the pair stay, though the service
    would answer zero. *)
Lemma X5_hits_are_never_overwritten_witness :
  routeCache (stateOf (main zeroMeters sameAddress (loaded warmFiles))) !! "HOME|OFFICE"
  = Some (JNum 3218.688%float).
Proof.
  destruct (X5_hits_are_never_overwritten zeroMeters sameAddress (loaded warmFiles)
              "HOME|OFFICE") as [_ H].
  rewrite H; [reflexivity|]. reflexivity.
Defined.

(** X6, witness: a first run without files, then a second one. *)
Lemma X6_rerun_geocodes_nothing_witness :
  Forall isDirectionsRequest
    (issued (script zeroMeters sameAddress
               (filesAfter (script oneMile sameAddress noFiles)))).
Proof.
  apply (X6_rerun_geocodes_nothing oneMile zeroMeters sameAddress noFiles).
  - by left.
  - reflexivity.
Defined.

(** X7, witness: the two keys of [sameAddress]. *)
Lemma X7_table_keys_witness :
  match main oneMile sameAddress emptyState with
  | Ret table _ => is_Some (table !! "OFFICE|HOME") ∧ table !! "HOME|HOME" = None
  | Throw _ _ => False
  end.
Proof.
  assert (returned (main oneMile sameAddress emptyState) = true) as Hret
    by (vm_compute; reflexivity).
  destruct (main oneMile sameAddress emptyState) as [table st'|e st'] eqn:Hrun;
    [|discriminate Hret].
  split.
  - apply (X7_table_keys _ _ _ _ _ "OFFICE|HOME" Hrun). compute_done.
  - apply eq_None_not_Some. intros H.
    apply (X7_table_keys _ _ _ _ _ "HOME|HOME" Hrun) in H. revert H. compute_done.
Defined.

End BatchExtras.

(* ===================================================================== *)
(** * Further properties of the interactive tool *)
(* ===================================================================== *)

Module InteractiveExtras.
Import Js Interactive InteractiveExamples InteractiveFacts.

(** ** The locations read from the page *)

Lemma trimStart_suffix (s : JsString) : ∃ p, s = (p ++ trimStart s)%list.
Proof.
  induction s as [|c s [p IH]]; simpl; [by exists []|].
  destruct (isWhiteSpace c); [|by exists []].
  exists (c :: p). simpl. by f_equal.
Qed.

Lemma trimStart_head (s : JsString) (c : N) :
  head (trimStart s) = Some c → isWhiteSpace c = false.
Proof.
  induction s as [|c' s IH]; simpl; [done|].
  destruct (isWhiteSpace c') eqn:Hc; [done|]. simpl. by intros [= <-].
Qed.

Lemma trimStart_last (s : JsString) (c : N) :
  last (trimStart s) = Some c → last s = Some c.
Proof.
  destruct (trimStart_suffix s) as [p Hp]. intros Hlast.
  rewrite Hp, last_app, Hlast. done.
Qed.

Lemma trim_trimmed (s : JsString) : trimmed (trim s).
Proof.
  unfold trimmed, trim. split; intros c.
  - rewrite head_reverse. intros H%trimStart_last.
    rewrite last_reverse in H. by apply trimStart_head in H.
  - rewrite last_reverse. apply trimStart_head.
Qed.

Lemma trim_subseteq (s : JsString) : trim s ⊆ s.
Proof.
  assert (∀ t : JsString, trimStart t ⊆ t) as Hsub.
  { intros t. destruct (trimStart_suffix t) as [p Hp]. rewrite Hp at 2.
    set_solver. }
  unfold trim. intros c Hc. rewrite elem_of_reverse in Hc.
  apply Hsub in Hc. rewrite elem_of_reverse in Hc. by apply Hsub in Hc.
Qed.

Lemma splitLines_no_line_feed (s : JsString) (line : JsString) :
  line ∈ splitLines s → 0xA%N ∉ line.
Proof.
  revert line. induction s as [|c s IH]; intros line; simpl.
  - intros ->%list_elem_of_singleton. apply not_elem_of_nil.
  - destruct (N.eqb_spec c 0xA) as [->|Hne].
    + intros [->|Hin]%elem_of_cons; [apply not_elem_of_nil|by apply IH].
    + destruct (splitLines s) as [|first rest] eqn:Hs.
      * intros ->%list_elem_of_singleton. set_solver.
      * intros [->|Hin]%elem_of_cons.
        -- apply not_elem_of_cons. split; [done|]. apply IH. left.
        -- apply IH. by right.
Qed.

Lemma enteredLocations_spec (value line : JsString) :
  line ∈ enteredLocations value →
  line ≠ [] ∧ trimmed line ∧ 0xA%N ∉ line.
Proof.
  unfold enteredLocations. intros [Hlen Hin]%list_elem_of_filter.
  apply list_elem_of_fmap in Hin as (raw & -> & Hraw). split_and!.
  - intros Hnil. rewrite Hnil in Hlen. simpl in Hlen. lia.
  - apply trim_trimmed.
  - intros Hc%trim_subseteq. by eapply splitLines_no_line_feed.
Qed.

Lemma routeLocations_subseteq (inputs : Inputs) :
  routeLocations inputs ⊆ enteredLocations (locationsValue inputs).
Proof.
  unfold routeLocations. destruct (roundTripChecked inputs); [|done].
  intros x [?|Hin%subseteq_take]%elem_of_app; done.
Qed.

(** ** The paths through [calculateMileage] *)

(** The call, path by path: the page it leaves and the requests it
    issues. *)
Lemma calculateMileage_eq token net inputs ui :
  calculateMileage token net inputs ui
  = let entered := enteredLocations (locationsValue inputs) in
    let locations := routeLocations inputs in
    if bool_decide (length entered < 2)%nat then
      (rejectedPage (Literal "Enter at least two locations.") ui, [])
    else if bool_decide (token = "") || bool_decide (token = PLACEHOLDER_TOKEN) then
      (rejectedPage
         (Literal "You need to set your Mapbox token in app.js before this will work.")
         ui, [])
    else
      match geocodeAll net 0 locations with
      | Error message => (failedPage message [], GeocodeRequest <$> locations)
      | Ok geocoded =>
          let coordinates := (λ c, (lon c, lat c)) <$> geocoded in
          let all := ((GeocodeRequest <$> locations)
                      ++ [DirectionsRequest coordinates])%list in
          match getRoute (directions net (length (GeocodeRequest <$> locations))
                            coordinates) with
          | Error message => (failedPage message [], all)
          | Ok route =>
              match (perLegBreakdown geocoded route).2 with
              | Some message =>
                  (failedPage message (perLegBreakdown geocoded route).1, all)
              | None =>
                  (donePage (perLegBreakdown geocoded route).1
                     (formatMiles (metersToMiles (distance route))), all)
              end
          end
      end.
Proof. unfold calculateMileage, routeLocations. reflexivity. Qed.

Lemma tokenSet_decide token :
  bool_decide (token = "") || bool_decide (token = PLACEHOLDER_TOKEN) = false
  ↔ tokenSet token.
Proof.
  unfold tokenSet. rewrite orb_false_iff, !bool_decide_eq_false. done.
Qed.

(** The call when the input is accepted and the token is set. *)
Lemma calculateMileage_accepted token net inputs ui :
  tokenSet token →
  (2 ≤ length (enteredLocations (locationsValue inputs)))%nat →
  calculateMileage token net inputs ui
  = let locations := routeLocations inputs in
    match geocodeAll net 0 locations with
    | Error message => (failedPage message [], GeocodeRequest <$> locations)
    | Ok geocoded =>
        let coordinates := (λ c, (lon c, lat c)) <$> geocoded in
        let all := ((GeocodeRequest <$> locations)
                    ++ [DirectionsRequest coordinates])%list in
        match getRoute (directions net (length locations) coordinates) with
        | Error message => (failedPage message [], all)
        | Ok route =>
            match (perLegBreakdown geocoded route).2 with
            | Some message =>
                (failedPage message (perLegBreakdown geocoded route).1, all)
            | None =>
                (donePage (perLegBreakdown geocoded route).1
                   (formatMiles (metersToMiles (distance route))), all)
            end
        end
    end.
Proof.
  intros Htok%tokenSet_decide Hlen. rewrite calculateMileage_eq. cbv zeta.
  rewrite bool_decide_false by lia. rewrite Htok. by rewrite length_fmap.
Qed.


(** X8: every address sent to the geocoding service is one of the lines
    entered, is not empty, has no white space at either end and contains
    no line feed. *)
Theorem X8_addresses_sent (token : string) (net : Network) (inputs : Inputs)
    (ui : UI) (a : JsString) :
  GeocodeRequest a ∈ (calculateMileage token net inputs ui).2 →
  a ∈ enteredLocations (locationsValue inputs)
  ∧ a ≠ [] ∧ trimmed a ∧ 0xA%N ∉ a.
Proof.
  intros Hin.
  assert (a ∈ routeLocations inputs) as Ha.
  { rewrite calculateMileage_eq in Hin. cbv zeta in Hin.
    assert (∀ l : list JsString, GeocodeRequest a ∈ GeocodeRequest <$> l → a ∈ l) as Hgeo.
    { intros l (b & [= ->] & Hb)%list_elem_of_fmap. done. }
    case_bool_decide; [by apply elem_of_nil in Hin|].
    destruct (_ || _); [by apply elem_of_nil in Hin|].
    destruct (geocodeAll _ _ _) as [geocoded|message]; [|by apply Hgeo].
    assert (GeocodeRequest a ∈ GeocodeRequest <$> routeLocations inputs) as H';
      [|by apply Hgeo].
    destruct (getRoute _) as [route|message];
      [destruct (perLegBreakdown geocoded route).2|];
      simpl in Hin; apply elem_of_app in Hin as [?|Hd]; try done;
      by apply list_elem_of_singleton in Hd. }
  apply routeLocations_subseteq in Ha. split; [done|].
  exact (enteredLocations_spec _ _ Ha).
Qed.


(** X10: once the input is accepted and the token is set the button is
    enabled when the call ends, however it ends; a call that rejects its
    input leaves the button as it was. *)
Theorem X10_button_after_a_call (token : string) (net : Network) (inputs : Inputs)
    (ui : UI) :
  let result := calculateMileage token net inputs ui in
  let entered := enteredLocations (locationsValue inputs) in
  (tokenSet token → (2 ≤ length entered)%nat →
   calculateDisabled result.1 = false)
  ∧ ((length entered < 2)%nat ∨ ¬ tokenSet token →
     calculateDisabled result.1 = calculateDisabled ui).
Proof.
  intros result entered. unfold result. split.
  - intros Htok Hlen. rewrite calculateMileage_accepted by done. cbv zeta.
    destruct (geocodeAll _ _ _) as [geocoded|message]; [|done].
    destruct (getRoute _) as [route|message]; [|done].
    by destruct (perLegBreakdown geocoded route).2.
  - intros Hrej. rewrite calculateMileage_eq. cbv zeta. fold entered.
    case_bool_decide as Hlen; [done|].
    destruct (_ || _) eqn:Htok; [done|].
    apply tokenSet_decide in Htok. destruct Hrej; [lia|done].
Qed.

(** X11: a call ends in one of two states of the page: an error is
    shown, the results are hidden and the total is empty; or "Done." is
    shown without error, the results are visible, the total is set and
    the button is enabled.  No partial result is ever visible. *)
Theorem X11_error_or_done (token : string) (net : Network) (inputs : Inputs)
    (ui : UI) :
  let result := calculateMileage token net inputs ui in
  (statusError result.1 = true
   ∧ resultsHidden result.1 = true
   ∧ totalMilesText result.1 = Literal "")
  ∨ (statusError result.1 = false
     ∧ statusText result.1 = Literal "Done."
     ∧ resultsHidden result.1 = false
     ∧ (∃ total, totalMilesText result.1 = TotalDistance total)
     ∧ calculateDisabled result.1 = false
     ∧ ∃ coordinates, last result.2 = Some (DirectionsRequest coordinates)).
Proof.
  intros result. unfold result. rewrite calculateMileage_eq. cbv zeta.
  case_bool_decide; [by left|].
  destruct (_ || _); [by left|].
  destruct (geocodeAll _ _ _) as [geocoded|message]; [|by left].
  destruct (getRoute _) as [route|message]; [|by left].
  destruct (perLegBreakdown geocoded route).2; [by left|].
  right. simpl. split_and!; [done|done|done|eauto|done|].
  rewrite last_snoc. eauto.
Qed.


(** ** The rows of the legs *)

Lemma legRows_spec geocoded (ls : list Leg) idx rows :
  (ls = [] ∨ idx + length ls < length geocoded)%nat →
  legRows geocoded ls idx rows
  = ((rows ++ imap (λ i, legRowOf (address <$> geocoded) (idx + i)) ls)%list, None).
Proof.
  revert idx rows. induction ls as [|leg ls IH]; intros idx rows Hrange; simpl.
  - by rewrite app_nil_r.
  - destruct Hrange as [?|Hrange]; [done|]. simpl in Hrange.
    unfold legRow. rewrite !addressAt_lookup by lia.
    rewrite IH by (right; lia). rewrite <- app_assoc. simpl.
    f_equal. f_equal. unfold legRowOf at 2. rewrite Nat.add_0_r. f_equal.
    apply imap_ext. intros i x _. simpl. f_equal. lia.
Qed.

Lemma legRows_overflow geocoded (ls : list Leg) idx rows :
  (idx < length geocoded)%nat → (length geocoded ≤ idx + length ls)%nat →
  ∃ message,
    legRows geocoded ls idx rows
    = ((rows ++ imap (λ i, legRowOf (address <$> geocoded) (idx + i))
                  (take (length geocoded - 1 - idx) ls))%list,
       Some message).
Proof.
  revert idx rows. induction ls as [|leg ls IH]; intros idx rows Hidx Hlen; simpl in *.
  - lia.
  - unfold legRow. rewrite addressAt_lookup by lia.
    destruct (decide (idx + 1 < length geocoded)%nat) as [Hin|Hout].
    + rewrite addressAt_lookup by lia.
      destruct (IH (S idx) (rows ++ [{| rowIndex := idx + 1;
                                         rowFrom := (address <$> geocoded) !!! idx;
                                         rowTo := (address <$> geocoded) !!! (idx + 1)%nat;
                                         rowMiles := formatMiles (metersToMiles (legDistance leg)) |}])%list)
        as [message ->]; [lia|lia|].
      exists message. f_equal.
      replace (length geocoded - 1 - idx)%nat with (S (length geocoded - 1 - S idx)) by lia.
      rewrite <- app_assoc. simpl. f_equal. f_equal.
      * unfold legRowOf. by rewrite Nat.add_0_r.
      * apply imap_ext. intros i x _. simpl. f_equal. lia.
    + unfold addressAt at 1. rewrite lookup_ge_None_2 by lia.
      eexists. replace (length geocoded - 1 - idx)%nat with 0%nat by lia.
      simpl. by rewrite app_nil_r.
Qed.

(** X12: when the route comes back with at least one leg and no more
    legs than there are consecutive pairs of locations, the table has one
    row per leg, in the order of the legs, row i from location i to
    location i + 1 with the distance of that leg in miles; the total line
    shows the distance of the route (not the sum of the rows), and the
    call ends with "Done.". *)
Theorem X12_one_row_per_leg (token : string) (net : Network) (inputs : Inputs)
    (ui : UI) (geocoded : list Geocoded) (route : Route) (ls : list Leg) :
  tokenSet token →
  (2 ≤ length (enteredLocations (locationsValue inputs)))%nat →
  geocodeAll net 0 (routeLocations inputs) = Ok geocoded →
  directions net (length (routeLocations inputs))
    ((λ c, (lon c, lat c)) <$> geocoded) = RouteFound route →
  legs route = Some ls →
  (0 < length ls < length geocoded)%nat →
  let result := calculateMileage token net inputs ui in
  legsRows result.1 = imap (legRowOf (routeLocations inputs)) ls
  ∧ totalMilesText result.1
    = TotalDistance (toFixed2 (ToNumber (distance route) / 1609.344)%float)
  ∧ statusText result.1 = Literal "Done."
  ∧ resultsHidden result.1 = false.
Proof.
  intros Htok Hlen Hgeo Hroute Hlegs Hls result. unfold result.
  rewrite calculateMileage_accepted by done. cbv zeta.
  rewrite Hgeo, Hroute. simpl getRoute. cbv iota.
  assert (perLegBreakdown geocoded route
          = (imap (legRowOf (routeLocations inputs)) ls, None)) as ->.
  { unfold perLegBreakdown. rewrite Hlegs.
    rewrite bool_decide_false by lia.
    rewrite legRows_spec by (right; lia).
    by rewrite (geocodeAll_Ok _ _ _ _ Hgeo). }
  done.
Qed.

(** X13: when the route comes back with as many legs as locations or
    more, the row after the last pair of locations cannot be built: the
    call ends with an error, the rows of the first K - 1 legs are left in
    the table, which stays hidden, no total is shown, and the button is
    enabled. *)
Theorem X13_more_legs_than_pairs (token : string) (net : Network)
    (inputs : Inputs) (ui : UI) (geocoded : list Geocoded) (route : Route)
    (ls : list Leg) :
  tokenSet token →
  (2 ≤ length (enteredLocations (locationsValue inputs)))%nat →
  geocodeAll net 0 (routeLocations inputs) = Ok geocoded →
  directions net (length (routeLocations inputs))
    ((λ c, (lon c, lat c)) <$> geocoded) = RouteFound route →
  legs route = Some ls →
  (length geocoded ≤ length ls)%nat →
  let result := calculateMileage token net inputs ui in
  legsRows result.1
  = imap (legRowOf (routeLocations inputs)) (take (length geocoded - 1) ls)
  ∧ statusError result.1 = true
  ∧ resultsHidden result.1 = true
  ∧ totalMilesText result.1 = Literal ""
  ∧ calculateDisabled result.1 = false.
Proof.
  intros Htok Hlen Hgeo Hroute Hlegs Hls result. unfold result.
  rewrite calculateMileage_accepted by done. cbv zeta.
  rewrite Hgeo, Hroute. simpl getRoute. cbv iota.
  pose proof (geocodeAll_Ok _ _ _ _ Hgeo) as Haddr.
  assert (2 ≤ length geocoded)%nat as HK.
  { rewrite <- (length_fmap address), Haddr. unfold routeLocations.
    destruct (roundTripChecked inputs); rewrite ?length_app; lia. }
  destruct (legRows_overflow geocoded ls 0 []) as [message Hrows]; [lia|lia|].
  assert (perLegBreakdown geocoded route
          = (imap (legRowOf (routeLocations inputs)) (take (length geocoded - 1) ls),
             Some message)) as ->.
  { unfold perLegBreakdown. rewrite Hlegs.
    rewrite bool_decide_false by lia.
    rewrite Hrows, Haddr, Nat.sub_0_r. done. }
  done.
Qed.

(** ** Instances *)

(** X8, witness: the three stops, trimmed. *)
Lemma X8_addresses_sent_witness :
  str "Chicago, IL" ∈ enteredLocations (locationsValue threeStops)
  ∧ trimmed (str "Chicago, IL").
Proof.
  destruct (X8_addresses_sent TOKEN noLegs5000 threeStops blankPage (str "Chicago, IL"))
    as (H1 & _ & H2 & _); [vm_compute; set_solver|].
  split; [exact H1|exact H2].
Defined.

(** X10, witness: the call for the three stops ends with the button
    enabled. *)
Lemma X10_button_after_a_call_witness :
  calculateDisabled (calculateMileage TOKEN secondNotFound threeStops blankPage).1 = false.
Proof.
  destruct (X10_button_after_a_call TOKEN secondNotFound threeStops blankPage) as [H _].
  apply H; [split; discriminate|vm_compute; lia].
Defined.

(** X12, witness: two legs for three stops. *)
Lemma X12_one_row_per_leg_witness :
  rowIndex <$> legsRows (calculateMileage TOKEN twoLegs3000 threeStops blankPage).1
  = [1; 2]%nat.
Proof.
  destruct (geocodeAll twoLegs3000 0 (routeLocations threeStops)) as [geocoded|e] eqn:Hgeo;
    [|vm_compute in Hgeo; discriminate Hgeo].
  assert (length geocoded = 3%nat) as HK.
  { apply geocodeAll_Ok in Hgeo. by rewrite <- (length_fmap address), Hgeo. }
  destruct (X12_one_row_per_leg TOKEN twoLegs3000 threeStops blankPage geocoded
              {| distance := JNum 3000%float;
                 legs := Some [ {| legDistance := JNum 1000%float |};
                                {| legDistance := JNum 2000%float |} ] |}
              [ {| legDistance := JNum 1000%float |};
                {| legDistance := JNum 2000%float |} ])
    as (Hrows & _); [split; discriminate|vm_compute; lia|exact Hgeo|reflexivity
                    |reflexivity|simpl; lia|].
  rewrite Hrows. reflexivity.
Defined.

(** X13, witness: three legs for three stops. *)
Lemma X13_more_legs_than_pairs_witness :
  length (legsRows (calculateMileage TOKEN threeLegs threeStops blankPage).1) = 2%nat
  ∧ statusError (calculateMileage TOKEN threeLegs threeStops blankPage).1 = true.
Proof.
  destruct (geocodeAll threeLegs 0 (routeLocations threeStops)) as [geocoded|e] eqn:Hgeo;
    [|vm_compute in Hgeo; discriminate Hgeo].
  assert (length geocoded = 3%nat) as HK.
  { apply geocodeAll_Ok in Hgeo. by rewrite <- (length_fmap address), Hgeo. }
  destruct (X13_more_legs_than_pairs TOKEN threeLegs threeStops blankPage geocoded
              {| distance := JNum 6000%float;
                 legs := Some [ {| legDistance := JNum 1000%float |};
                                {| legDistance := JNum 2000%float |};
                                {| legDistance := JNum 3000%float |} ] |}
              [ {| legDistance := JNum 1000%float |};
                {| legDistance := JNum 2000%float |};
                {| legDistance := JNum 3000%float |} ])
    as (Hrows & Herr & _); [split; discriminate|vm_compute; lia|exact Hgeo|reflexivity
                           |reflexivity|simpl; lia|].
  split; [|exact Herr]. rewrite Hrows, HK. reflexivity.
Defined.


End InteractiveExtras.
